(** * PointerWars singly linked list ([linked_list.c]): model and properties

    The C file manipulates three kinds of heap blocks ([struct node],
    [struct linked_list], [struct iterator]) through raw pointers and a
    registered allocator.  The embedding below keeps that shape:

    - a pointer is a machine word ([Z]), [NULL] is [0];
    - the memory is a triple of finite maps from addresses to structs
      (one map per struct type);
    - every C function is a computation in a small state-and-error monad
      whose failure cases are [Crash] (a load or store through [NULL] or a
      dangling pointer, i.e. undefined behaviour in C) and [OutOfFuel]
      (a [while] loop that did not finish within the given number of
      iterations);
    - the registered allocator is external code: the addresses it is going
      to return (0 for a failed allocation) are part of the state;
    - an [unsigned int] data value is a [Z]; the functions only store,
      copy and compare data values, so no arithmetic on them is needed. *)

From stdpp Require Import base numbers option list gmap.
From Stdlib Require Import ZArith Lia.

Open Scope Z_scope.

(** ** Machine words *)

(** [size_t] is taken to be 64 bits wide, and pointers have the same width. *)
Definition SIZE_MAX : Z := 18446744073709551615.
Definition NULL : Z := 0.

(** Unsigned [size_t] arithmetic wraps around. *)
Definition wrap (z : Z) : Z := z mod (SIZE_MAX + 1).

(** [if (!p)] *)
Definition is_null (p : Z) : bool := p =? NULL.

(** ** The structs of [linked_list.h]

    The header is not part of the sources at hand; the fields are the ones
    [linked_list.c] reads and writes.  Field names carry the struct as a
    prefix because [data], [next], [head] and [size] would otherwise
    clash with each other and with list functions. *)

Record node := Node {
  node_data : Z;          (* unsigned int data   *)
  node_next : Z           (* struct node *next   *)
}.

Record linked_list := LinkedList {
  ll_head : Z;            (* struct node *head   *)
  ll_size : Z             (* size_t size         *)
}.

Record iterator := Iterator {
  it_ll : Z;              (* struct linked_list *ll     *)
  it_current_index : Z;   (* size_t current_index       *)
  it_current_node : Z;    (* struct node *current_node  *)
  it_data : Z             (* unsigned int data          *)
}.

(** ** Memory *)

Record state := State {
  nodes : gmap Z node;
  lists : gmap Z linked_list;
  iters : gmap Z iterator;
  allocs : list Z         (* what the next calls of malloc_fptr return *)
}.

Definition with_nodes (f : gmap Z node → gmap Z node) (st : state) : state :=
  State (f (nodes st)) (lists st) (iters st) (allocs st).
Definition with_lists (f : gmap Z linked_list → gmap Z linked_list) (st : state) : state :=
  State (nodes st) (f (lists st)) (iters st) (allocs st).
Definition with_iters (f : gmap Z iterator → gmap Z iterator) (st : state) : state :=
  State (nodes st) (lists st) (f (iters st)) (allocs st).

(** ** The monad *)

Inductive result (A : Type) : Type :=
  | Ok (a : A) (st : state)
  | Crash
  | OutOfFuel.
Arguments Ok {A} a st.
Arguments Crash {A}.
Arguments OutOfFuel {A}.

Definition M (A : Type) : Type := state → result A.

Definition ret {A} (a : A) : M A := λ st, Ok a st.
Definition bind {A B} (c : M A) (k : A → M B) : M B :=
  λ st, match c st with
        | Ok a st' => k a st'
        | Crash => Crash
        | OutOfFuel => OutOfFuel
        end.
Definition crash {A} : M A := λ _, Crash.
Definition out_of_fuel {A} : M A := λ _, OutOfFuel.
Definition modify (f : state → state) : M unit := λ st, Ok () (f st).

#[global] Typeclasses Opaque M.
#[global] Instance M_ret : MRet M := @ret.
#[global] Instance M_bind : MBind M := λ A B k c, bind c k.

(** *** Loads and stores

    A load or a store through [NULL] or through an address that holds no
    live block of the right type crashes. *)

Definition load_node (p : Z) : M node := λ st,
  if is_null p then Crash else
  match nodes st !! p with Some n => Ok n st | None => Crash end.
Definition store_node (p : Z) (n : node) : M unit := λ st,
  if is_null p then Crash else
  match nodes st !! p with
  | Some _ => Ok () (with_nodes <[p := n]> st)
  | None => Crash
  end.

Definition load_list (p : Z) : M linked_list := λ st,
  if is_null p then Crash else
  match lists st !! p with Some l => Ok l st | None => Crash end.
Definition store_list (p : Z) (l : linked_list) : M unit := λ st,
  if is_null p then Crash else
  match lists st !! p with
  | Some _ => Ok () (with_lists <[p := l]> st)
  | None => Crash
  end.

Definition load_iter (p : Z) : M iterator := λ st,
  if is_null p then Crash else
  match iters st !! p with Some i => Ok i st | None => Crash end.
Definition store_iter (p : Z) (i : iterator) : M unit := λ st,
  if is_null p then Crash else
  match iters st !! p with
  | Some _ => Ok () (with_iters <[p := i]> st)
  | None => Crash
  end.

(** Field reads [p->f] and field writes [p->f = v]. *)
Definition get_data (p : Z) : M Z := n ← load_node p; mret (node_data n).
Definition get_next (p : Z) : M Z := n ← load_node p; mret (node_next n).
Definition set_data (p v : Z) : M unit :=
  n ← load_node p; store_node p (Node v (node_next n)).
Definition set_next (p v : Z) : M unit :=
  n ← load_node p; store_node p (Node (node_data n) v).

Definition get_head (p : Z) : M Z := l ← load_list p; mret (ll_head l).
Definition get_size (p : Z) : M Z := l ← load_list p; mret (ll_size l).
Definition set_head (p v : Z) : M unit :=
  l ← load_list p; store_list p (LinkedList v (ll_size l)).
Definition set_size (p v : Z) : M unit :=
  l ← load_list p; store_list p (LinkedList (ll_head l) v).

Definition get_current_index (p : Z) : M Z :=
  i ← load_iter p; mret (it_current_index i).
Definition get_current_node (p : Z) : M Z :=
  i ← load_iter p; mret (it_current_node i).
Definition set_ll (p v : Z) : M unit :=
  i ← load_iter p;
  store_iter p (Iterator v (it_current_index i) (it_current_node i) (it_data i)).
Definition set_current_index (p v : Z) : M unit :=
  i ← load_iter p;
  store_iter p (Iterator (it_ll i) v (it_current_node i) (it_data i)).
Definition set_current_node (p v : Z) : M unit :=
  i ← load_iter p;
  store_iter p (Iterator (it_ll i) (it_current_index i) v (it_data i)).
Definition set_it_data (p v : Z) : M unit :=
  i ← load_iter p;
  store_iter p (Iterator (it_ll i) (it_current_index i) (it_current_node i) v).

(** *** The registered allocator

    [malloc_fptr] and [free_fptr] are function pointers set by
    [linked_list_register_malloc] and [linked_list_register_free]; they are
    assumed registered.  A call of [malloc_fptr] returns the next address
    of [allocs] (or [NULL] once [allocs] is exhausted).  The block it
    returns holds indeterminate values, modelled by zeroes: the functions
    below write every field of a fresh block before reading any. *)

Definition malloc_fptr : M Z := λ st,
  match allocs st with
  | [] => Ok NULL st
  | p :: rest => Ok p (State (nodes st) (lists st) (iters st) rest)
  end.

(** [malloc_fptr(sizeof(struct node))] *)
Definition malloc_node : M Z :=
  p ← malloc_fptr;
  if is_null p then mret NULL
  else modify (with_nodes <[p := Node 0 NULL]>);; mret p.

(** [malloc_fptr(sizeof(struct linked_list))] *)
Definition malloc_list : M Z :=
  p ← malloc_fptr;
  if is_null p then mret NULL
  else modify (with_lists <[p := LinkedList NULL 0]>);; mret p.

(** [malloc_fptr(sizeof(struct iterator))] *)
Definition malloc_iterator : M Z :=
  p ← malloc_fptr;
  if is_null p then mret NULL
  else modify (with_iters <[p := Iterator NULL 0 NULL 0]>);; mret p.

(** [free_fptr(p)]: releasing [NULL] does nothing, releasing an address
    that holds no live block is undefined. *)
Definition free_node (p : Z) : M unit := λ st,
  if is_null p then Ok () st else
  match nodes st !! p with
  | Some _ => Ok () (with_nodes (delete p) st)
  | None => Crash
  end.
Definition free_list (p : Z) : M unit := λ st,
  if is_null p then Ok () st else
  match lists st !! p with
  | Some _ => Ok () (with_lists (delete p) st)
  | None => Crash
  end.
Definition free_iterator (p : Z) : M unit := λ st,
  if is_null p then Ok () st else
  match iters st !! p with
  | Some _ => Ok () (with_iters (delete p) st)
  | None => Crash
  end.

(** ** The functions of [linked_list.c] *)

(** [ll->size++] and [ll->size--] *)
Definition incr_size (ll : Z) : M unit :=
  sz ← get_size ll; set_size ll (wrap (sz + 1)).
Definition decr_size (ll : Z) : M unit :=
  sz ← get_size ll; set_size ll (wrap (sz - 1)).

Definition linked_list_create : M Z :=
  ll ← malloc_list;
  if is_null ll then mret NULL else
  set_head ll NULL;;
  set_size ll 0;;
  mret ll.

(** [while (cur) { next = cur->next; free_fptr(cur); cur = next; }] *)
Fixpoint delete_loop (fuel : nat) (cur : Z) : M unit :=
  match fuel with
  | O => out_of_fuel
  | S fuel' =>
      if is_null cur then mret () else
      nxt ← get_next cur;
      free_node cur;;
      delete_loop fuel' nxt
  end.

Definition linked_list_delete (fuel : nat) (ll : Z) : M bool :=
  if is_null ll then mret false else
  cur ← get_head ll;
  delete_loop fuel cur;;
  free_list ll;;
  mret true.

Definition linked_list_size (ll : Z) : M Z :=
  if is_null ll then mret SIZE_MAX else
  get_size ll.

(** [while (cur->next) cur = cur->next;] *)
Fixpoint last_loop (fuel : nat) (cur : Z) : M Z :=
  match fuel with
  | O => out_of_fuel
  | S fuel' =>
      nxt ← get_next cur;
      if is_null nxt then mret cur else last_loop fuel' nxt
  end.

Definition linked_list_insert_end (fuel : nat) (ll data : Z) : M bool :=
  if is_null ll then mret false else
  cur ← get_head ll;
  node ← malloc_node;
  if is_null node then mret false else
  set_data node data;;
  set_next node NULL;;
  (if is_null cur then set_head ll node
   else cur' ← last_loop fuel cur; set_next cur' node);;
  incr_size ll;;
  mret true.

Definition linked_list_insert_front (ll data : Z) : M bool :=
  if is_null ll then mret false else
  node ← malloc_node;
  if is_null node then mret false else
  set_data node data;;
  hd ← get_head ll;
  set_next node hd;;
  set_head ll node;;
  incr_size ll;;
  mret true.

(** [while (cur && idx < index) { prev = cur; cur = cur->next; idx++; }]
    This loop occurs in [linked_list_insert], [linked_list_remove] and
    (without [prev]) in [linked_list_create_iterator]; it yields the final
    [(prev, cur, idx)]. *)
Fixpoint walk_loop (fuel : nat) (index prev cur idx : Z) : M (Z * Z * Z) :=
  match fuel with
  | O => out_of_fuel
  | S fuel' =>
      if negb (is_null cur) && (idx <? index) then
        nxt ← get_next cur;
        walk_loop fuel' index cur nxt (wrap (idx + 1))
      else mret (prev, cur, idx)
  end.

Definition linked_list_insert (fuel : nat) (ll index data : Z) : M bool :=
  if is_null ll then mret false else
  sz ← get_size ll;
  if (index <? 0) || (index >? sz) then mret false else
  if index =? 0 then linked_list_insert_front ll data else
  sz ← get_size ll;
  if index =? sz then linked_list_insert_end fuel ll data else
  cur ← get_head ll;
  '(prev, cur, _) ← walk_loop fuel index NULL cur 0;
  new ← malloc_node;
  if is_null new then mret false else
  set_data new data;;
  set_next new cur;;
  set_next prev new;;
  incr_size ll;;
  mret true.

(** [while (cur) { if (cur->data == data) return idx; cur = cur->next; idx++; }
     return SIZE_MAX;] *)
Fixpoint find_loop (fuel : nat) (data cur idx : Z) : M Z :=
  match fuel with
  | O => out_of_fuel
  | S fuel' =>
      if is_null cur then mret SIZE_MAX else
      d ← get_data cur;
      if d =? data then mret idx else
      nxt ← get_next cur;
      find_loop fuel' data nxt (wrap (idx + 1))
  end.

Definition linked_list_find (fuel : nat) (ll data : Z) : M Z :=
  if is_null ll then mret SIZE_MAX else
  cur ← get_head ll;
  find_loop fuel data cur 0.

Definition linked_list_remove (fuel : nat) (ll index : Z) : M bool :=
  if is_null ll then mret false else
  sz ← get_size ll;
  if (index <? 0) || (index >? sz) then mret false else
  cur ← get_head ll;
  if index =? 0 then
    nxt ← get_next cur;
    set_head ll nxt;;
    free_node cur;;
    decr_size ll;;
    mret true
  else
    '(prev, cur, _) ← walk_loop fuel index NULL cur 0;
    if is_null cur then mret false else
    nxt ← get_next cur;
    set_next prev nxt;;
    set_next cur NULL;;
    free_node cur;;
    decr_size ll;;
    mret true.

Definition linked_list_create_iterator (fuel : nat) (ll index : Z) : M Z :=
  if is_null ll then mret NULL else
  sz ← get_size ll;
  if index >? sz then mret NULL else
  cur ← get_head ll;
  '(_, cur, idx) ← walk_loop fuel index NULL cur 0;
  if is_null cur then mret NULL else
  it ← malloc_iterator;
  if is_null it then mret NULL else
  set_ll it ll;;
  set_current_index it idx;;
  set_current_node it cur;;
  d ← get_data cur;
  set_it_data it d;;
  mret it.

Definition linked_list_delete_iterator (iter : Z) : M bool :=
  if is_null iter then mret false else
  free_iterator iter;;
  mret true.

Definition linked_list_iterate (iter : Z) : M bool :=
  if is_null iter then mret false else
  cn ← get_current_node iter;
  if is_null cn then mret false else
  nxt ← get_next cn;
  set_current_node iter nxt;;
  cn ← get_current_node iter;
  if is_null cn then mret false else
  idx ← get_current_index iter;
  set_current_index iter (wrap (idx + 1));;
  cn ← get_current_node iter;
  d ← get_data cn;
  set_it_data iter d;;
  mret true.

(** ** Counting the nodes reachable from a pointer

    This is the loop of the commented-out first version of
    [linked_list_size] in the source:
    [while (cur) { size++; cur = cur->next; }]. *)
Fixpoint count_loop (fuel : nat) (cur sz : Z) : M Z :=
  match fuel with
  | O => out_of_fuel
  | S fuel' =>
      if is_null cur then mret sz else
      nxt ← get_next cur;
      count_loop fuel' nxt (wrap (sz + 1))
  end.

Definition count_nodes (fuel : nat) (ll : Z) : M Z :=
  cur ← get_head ll;
  count_loop fuel cur 0.

(** ** Well-formed lists

    A chain of nodes is described by the list of its cells, each an
    (address, data) pair.  [lseg h p cells q] says that following [next]
    pointers in [h] from [p] visits exactly [cells] and ends in [q]. *)

Definition valid_ptr (p : Z) : Prop := 0 < p ≤ SIZE_MAX.

Fixpoint lseg (h : gmap Z node) (p : Z) (cells : list (Z * Z)) (q : Z) : Prop :=
  match cells with
  | [] => p = q
  | c :: rest =>
      p = c.1 ∧ valid_ptr p ∧
      ∃ n, h !! p = Some (Node c.2 n) ∧ lseg h n rest q
  end.

(** [ll] points to a list header whose chain is [cells] and whose cached
    size is the length of the chain. *)
Definition is_list (st : state) (ll : Z) (cells : list (Z * Z)) : Prop :=
  ll ≠ NULL ∧
  ∃ hd, lists st !! ll = Some (LinkedList hd (Z.of_nat (length cells))) ∧
        lseg (nodes st) hd cells NULL.

(** The element sequence of a chain. *)
Definition contents (cells : list (Z * Z)) : list Z := cells.*2.

(** The next allocation, if it succeeds, returns the address of a block
    that is not live. *)
Definition alloc_ok (st : state) : Prop :=
  ∀ p rest, allocs st = p :: rest → p ≠ NULL →
    valid_ptr p ∧ nodes st !! p = None ∧ lists st !! p = None ∧
    iters st !! p = None.

(** The next allocation fails / succeeds. *)
Definition alloc_fails (st : state) : Prop :=
  match allocs st with [] => True | p :: _ => p = NULL end.
Definition alloc_succeeds (st : state) : Prop :=
  match allocs st with [] => False | p :: _ => p ≠ NULL end.

(** The address of the last cell of [cells], or [prev] if there is none:
    the value of [prev] when a walk over [cells] ends. *)
Definition last_ptr (prev : Z) (cells : list (Z * Z)) : Z :=
  default prev (last cells.*1).

(** The state after a call of [malloc_fptr] that returned [NULL]. *)
Definition pop_alloc (st : state) : state :=
  State (nodes st) (lists st) (iters st) (tail (allocs st)).

(** ** Sequences of operations on one list

    A client of the library performs insertions and removals on a list;
    [run_ok ll ops st st'] says that the operations [ops], run in order
    from [st], all returned [true] and led to [st'], and that the
    allocator behaved at each insertion (the only operations that
    allocate).  Nothing is asked of the allocator at a removal, so a block
    that a removal released may be handed out again by a later
    insertion. *)

Inductive op : Type :=
  | OpInsertFront (data : Z)
  | OpInsertEnd (data : Z)
  | OpInsert (index data : Z)
  | OpRemove (index : Z).

Definition run_op (fuel : nat) (ll : Z) (o : op) : M bool :=
  match o with
  | OpInsertFront data => linked_list_insert_front ll data
  | OpInsertEnd data => linked_list_insert_end fuel ll data
  | OpInsert index data => linked_list_insert fuel ll index data
  | OpRemove index => linked_list_remove fuel ll index
  end.

Definition is_insert (o : op) : bool :=
  match o with OpRemove _ => false | _ => true end.

(** An index argument is a [size_t]. *)
Definition op_args_ok (o : op) : Prop :=
  match o with
  | OpInsert index _ | OpRemove index => 0 ≤ index ≤ SIZE_MAX
  | _ => True
  end.

Inductive run_ok (ll : Z) : list op → state → state → Prop :=
  | run_nil st : run_ok ll [] st st
  | run_cons fuel o ops st st1 st2 :
      (is_insert o = true → alloc_ok st) → op_args_ok o →
      run_op fuel ll o st = Ok true st1 →
      run_ok ll ops st1 st2 →
      run_ok ll (o :: ops) st st2.

(** [n] times [linked_list_remove(ll, 0)], stopping at the first failure. *)
Fixpoint remove_front_n (fuel : nat) (ll : Z) (n : nat) : M bool :=
  match n with
  | O => mret true
  | S n' =>
      b ← linked_list_remove fuel ll 0;
      if (b : bool) then remove_front_n fuel ll n' else mret false
  end.

(** The result of call number [n + 1] of [linked_list_iterate] on [iter]. *)
Fixpoint iterate_n (n : nat) (iter : Z) : M bool :=
  match n with
  | O => linked_list_iterate iter
  | S n' => linked_list_iterate iter;; iterate_n n' iter
  end.

(** *** Example states

    [st_fresh]: nothing allocated yet.  [st_two]: the list [7, 9] at
    address 100, its nodes at 8 and 16. *)
Definition st_fresh : state := State ∅ ∅ ∅ [100; 8; 16; 24].

Definition st_two : state :=
  State {[ 8 := Node 7 16; 16 := Node 9 NULL ]}
        {[ 100 := LinkedList 8 2 ]}
        ∅
        [24; 32].

Definition cells_two : list (Z * Z) := [(8, 7); (16, 9)].

(** [st_two] with an allocator that has run out of memory. *)
Definition st_two_oom : state :=
  State (nodes st_two) (lists st_two) (iters st_two) [].

(** [st_two] with an iterator at address 24 that stands on the last node. *)
Definition st_iter : state :=
  State (nodes st_two) (lists st_two) {[ 24 := Iterator 100 1 16 9 ]} [32].

(** [st_created]: [st_fresh] after [linked_list_create] returned 100.
    [st_inserted]: [st_created] after [insert_front 5], [insert_end 7] and
    [insert] of 6 at index 1. *)
Definition st_created : state :=
  State ∅ {[ 100 := LinkedList NULL 0 ]} ∅ [8; 16; 24].

Definition st_inserted : state :=
  State {[ 8 := Node 5 24; 24 := Node 6 16; 16 := Node 7 NULL ]}
        {[ 100 := LinkedList 8 3 ]} ∅ [].

(** A run in which the allocator hands out a released block again: the
    node at address 8 is allocated by the first insertion, released by the
    removal and returned once more by the second insertion.
    [st_reuse_created] is [st_reuse_fresh] after [linked_list_create]
    returned 100, [st_reuse_final] is the state after [ops_reuse]. *)
Definition st_reuse_fresh : state := State ∅ ∅ ∅ [100; 8; 8; 16].

Definition st_reuse_created : state :=
  State ∅ {[ 100 := LinkedList NULL 0 ]} ∅ [8; 8; 16].

Definition ops_reuse : list op :=
  [OpInsertFront 5; OpRemove 0; OpInsertFront 6; OpInsertEnd 7].

Definition st_reuse_final : state :=
  State {[ 8 := Node 6 16; 16 := Node 7 NULL ]}
        {[ 100 := LinkedList 8 2 ]} ∅ [].

Definition ops_inserts : list op := [OpInsertFront 5; OpInsertEnd 7; OpInsert 1 6].

(** [st_pair]: the list [7, 9] at address 100 and a second list [1] at
    address 200.  [st_pair_after]: [st_pair] after [insert_front 5],
    [remove] at index 1 and [insert_end 3] on the first list; the last
    insertion gets the block at address 8 that the removal released. *)
Definition st_pair : state :=
  State {[ 8 := Node 7 16; 16 := Node 9 NULL; 40 := Node 1 NULL ]}
        {[ 100 := LinkedList 8 2; 200 := LinkedList 40 1 ]}
        ∅
        [24; 8].

Definition st_pair_after : state :=
  State {[ 24 := Node 5 16; 16 := Node 9 8; 8 := Node 3 NULL;
           40 := Node 1 NULL ]}
        {[ 100 := LinkedList 24 3; 200 := LinkedList 40 1 ]}
        ∅
        [].

Definition ops_pair : list op := [OpInsertFront 5; OpRemove 1; OpInsertEnd 3].

(** The memory that is not the list at [ll] is as in the reference memory
    [(h0, l0, i0)], in which the nodes of the chain are not live. *)
Definition rest_as (h0 : gmap Z node) (l0 : gmap Z linked_list)
    (i0 : gmap Z iterator) (ll : Z) (st : state) (cells : list (Z * Z)) : Prop :=
  (∀ q, q ∈ cells.*1 → h0 !! q = None) ∧
  (∀ q, q ∉ cells.*1 → nodes st !! q = h0 !! q) ∧
  (∀ q, q ≠ ll → lists st !! q = l0 !! q) ∧
  iters st = i0.

(** [st_ends]: [st_created] after [insert_end 5] and [insert_end 7].
    [st_fronts]: [st_created] after [insert_front 5] and [insert_front 7]. *)
Definition st_ends : state :=
  State {[ 8 := Node 5 16; 16 := Node 7 NULL ]}
        {[ 100 := LinkedList 8 2 ]} ∅ [24].

Definition st_fronts : state :=
  State {[ 8 := Node 5 NULL; 16 := Node 7 8 ]}
        {[ 100 := LinkedList 16 2 ]} ∅ [24].

(** A computation's result does not depend on the fuel once it has enough. *)
Definition fuel_mono {A} (c : nat → M A) : Prop :=
  ∀ (f f' : nat) st a st',
    (f ≤ f')%nat → c f st = Ok a st' → c f' st = Ok a st'.

(** ** The list as a sequence

    What each operation does to the element sequence when it succeeds. *)
Definition apply_op (o : op) (xs : list Z) : list Z :=
  match o with
  | OpInsertFront v => v :: xs
  | OpInsertEnd v => xs ++ [v]
  | OpInsert index v =>
      take (Z.to_nat index) xs ++ v :: drop (Z.to_nat index) xs
  | OpRemove index =>
      take (Z.to_nat index) xs ++ drop (S (Z.to_nat index)) xs
  end.

(** The footprint of an operation that took the list at [ll] from the
    chain [cells] to the chain [cells']: nodes outside both chains are as
    before, the nodes that joined the chain were not live, the nodes that
    left it are released, and other list headers and all iterators are
    as before. *)
Definition frame (ll : Z) (st st' : state) (cells cells' : list (Z * Z)) : Prop :=
  (∀ q, q ∉ cells.*1 → q ∉ cells'.*1 → nodes st' !! q = nodes st !! q) ∧
  (∀ q, q ∈ cells'.*1 → q ∉ cells.*1 → nodes st !! q = None) ∧
  (∀ q, q ∈ cells.*1 → q ∉ cells'.*1 → nodes st' !! q = None) ∧
  (∀ q, q ≠ ll → lists st' !! q = lists st !! q) ∧
  iters st' = iters st.

(** ** Facts about chains *)

Lemma is_null_true p : is_null p = true ↔ p = NULL.
Proof. unfold is_null. apply Z.eqb_eq. Qed.

Lemma is_null_false p : is_null p = false ↔ p ≠ NULL.
Proof. unfold is_null. apply Z.eqb_neq. Qed.

Lemma valid_ptr_not_null p : valid_ptr p → is_null p = false.
Proof. intros [? ?]. apply is_null_false. unfold NULL. lia. Qed.

Lemma lseg_app h p c1 c2 q :
  lseg h p (c1 ++ c2) q ↔ ∃ m, lseg h p c1 m ∧ lseg h m c2 q.
Proof.
  revert p. induction c1 as [|c c1 IH]; intros p; simpl.
  - split; [intros H; by exists p | by intros (m & -> & H)].
  - split.
    + intros (Hp & Hv & n & Hn & Hrest).
      apply IH in Hrest as (m & H1 & H2). exists m. eauto 8.
    + intros (m & (Hp & Hv & n & Hn & H1) & H2).
      split; [done|]. split; [done|]. exists n. split; [done|]. apply IH. eauto.
Qed.

Lemma lseg_insert_ne h p cells q l n :
  l ∉ cells.*1 → lseg h p cells q → lseg (<[l := n]> h) p cells q.
Proof.
  revert p. induction cells as [|c cells IH]; intros p Hl; simpl; [done|].
  intros (Hp & Hv & n' & Hn & Hrest).
  rewrite fmap_cons in Hl. apply not_elem_of_cons in Hl as [Hne Hl].
  split; [done|]. split; [done|]. exists n'. split; [|by apply IH].
  rewrite lookup_insert_ne; [done | congruence].
Qed.

Lemma lseg_delete_ne h p cells q l :
  l ∉ cells.*1 → lseg h p cells q → lseg (delete l h) p cells q.
Proof.
  revert p. induction cells as [|c cells IH]; intros p Hl; simpl; [done|].
  intros (Hp & Hv & n' & Hn & Hrest).
  rewrite fmap_cons in Hl. apply not_elem_of_cons in Hl as [Hne Hl].
  split; [done|]. split; [done|]. exists n'. split; [|by apply IH].
  rewrite lookup_delete_ne; [done | congruence].
Qed.

Lemma lseg_live h p cells q l :
  lseg h p cells q → l ∈ cells.*1 → is_Some (h !! l) ∧ valid_ptr l.
Proof.
  revert p. induction cells as [|c cells IH]; intros p; simpl.
  - intros _ Hl. by apply elem_of_nil in Hl.
  - intros (Hp & Hv & n & Hn & Hrest) Hl.
    apply elem_of_cons in Hl as [-> | Hl]; [|by eapply IH].
    subst p. eauto.
Qed.

Lemma lseg_fresh h p cells q l :
  lseg h p cells q → h !! l = None → l ∉ cells.*1.
Proof.
  intros Hseg Hnone Hl.
  destruct (lseg_live _ _ _ _ _ Hseg Hl) as [[x Hx] _]. congruence.
Qed.

(** A chain that ends in [NULL] is determined by its first pointer. *)
Lemma lseg_functional h p c1 c2 :
  lseg h p c1 NULL → lseg h p c2 NULL → c1 = c2.
Proof.
  revert p c2. induction c1 as [|[l d] c1 IH]; intros p [|[l' d'] c2]; simpl.
  - done.
  - intros -> (_ & [? _] & _). unfold NULL in *. lia.
  - intros (_ & [? _] & _) ->. unfold NULL in *. lia.
  - intros (-> & _ & n & Hn & H1) (Heq & _ & n' & Hn' & H2).
    subst l'. rewrite Hn in Hn'. injection Hn' as -> ->.
    f_equal. eauto.
Qed.

(** Such a chain visits no node twice. *)
Lemma lseg_NoDup h p cells :
  lseg h p cells NULL → NoDup cells.*1.
Proof.
  revert p. induction cells as [|[l d] cells IH]; intros p; simpl.
  - intros _. constructor.
  - intros (-> & Hv & n & Hn & Hrest). constructor; [|by eapply IH].
    intros Hin. apply list_elem_of_fmap in Hin as ([l' d'] & Heq & Hin).
    simpl in Heq. subst l'.
    apply list_elem_of_split in Hin as (c1 & c2 & ->).
    pose proof Hrest as Hrest'.
    apply lseg_app in Hrest' as (m & _ & Hm).
    pose proof Hm as (Hml & _). simpl in Hml. subst m.
    assert (Hwhole : lseg h l ((l, d) :: c1 ++ (l, d') :: c2) NULL).
    { simpl. split; [done|]. split; [done|]. eauto. }
    pose proof (lseg_functional _ _ _ _ Hm Hwhole) as Heq.
    apply (f_equal length) in Heq. simpl in Heq.
    rewrite length_app in Heq. simpl in Heq. lia.
Qed.

Lemma lseg_valid h p cells q :
  lseg h p cells q → Forall valid_ptr cells.*1.
Proof.
  revert p. induction cells as [|c cells IH]; intros p; simpl.
  - constructor.
  - intros (-> & Hv & n & Hn & Hrest). constructor; eauto.
Qed.

(** There are at most [n] distinct addresses in [1 .. n]. *)
Lemma NoDup_bounded_length (n : nat) (ls : list Z) :
  NoDup ls → (∀ l, l ∈ ls → 0 < l ≤ Z.of_nat n) → (length ls ≤ n)%nat.
Proof.
  revert ls. induction n as [|n IH]; intros ls Hnd Hall.
  - destruct ls as [|l ls]; [done|].
    specialize (Hall l (list_elem_of_here _ _)). lia.
  - destruct (decide (Z.of_nat (S n) ∈ ls)) as [Hin|Hnin].
    + apply list_elem_of_split in Hin as (l1 & l2 & ->).
      apply NoDup_app in Hnd as (Hnd1 & Hdisj & Hnd2).
      apply NoDup_cons in Hnd2 as [Hn2 Hnd2].
      assert (length (l1 ++ l2) ≤ n)%nat as Hlen.
      { apply IH.
        - apply NoDup_app. split; [done|]. split; [|done].
          intros x Hx1 Hx2. apply (Hdisj x Hx1). by right.
        - intros x Hx.
          assert (x ≠ Z.of_nat (S n)) as Hne.
          { intros ->. apply elem_of_app in Hx as [Hx|Hx]; [|done].
            apply (Hdisj _ Hx). by left. }
          assert (x ∈ l1 ++ Z.of_nat (S n) :: l2) as Hx'.
          { apply elem_of_app in Hx as [Hx|Hx]; apply elem_of_app;
              [by left | right; by right]. }
          specialize (Hall x Hx'). lia. }
      rewrite length_app in Hlen |- *. simpl. lia.
    + assert (length ls ≤ n)%nat; [|lia]. apply IH; [done|].
      intros x Hx. assert (x ≠ Z.of_nat (S n)) by (by intros ->).
      specialize (Hall x Hx). lia.
Qed.

Lemma NoDup_bounded_length_Z (m : Z) (ls : list Z) :
  0 ≤ m → NoDup ls → (∀ l, l ∈ ls → 0 < l ≤ m) → Z.of_nat (length ls) ≤ m.
Proof.
  intros Hm Hnd Hall.
  assert (length ls ≤ Z.to_nat m)%nat as Hlen.
  { apply NoDup_bounded_length; [done|].
    intros l Hl. specialize (Hall l Hl). rewrite Z2Nat.id; lia. }
  apply Nat2Z.inj_le in Hlen. rewrite Z2Nat.id in Hlen; lia.
Qed.

Lemma SIZE_MAX_nonneg : 0 ≤ SIZE_MAX.
Proof. by unfold SIZE_MAX. Qed.

(** So a chain has at most [SIZE_MAX] nodes: its length fits in [size_t]. *)
Lemma lseg_length_bound h p cells :
  lseg h p cells NULL → Z.of_nat (length cells) ≤ SIZE_MAX.
Proof.
  intros Hseg.
  pose proof (lseg_NoDup _ _ _ Hseg) as Hnd.
  pose proof (lseg_valid _ _ _ _ Hseg) as Hall.
  rewrite <- (length_fmap fst cells).
  apply NoDup_bounded_length_Z; [apply SIZE_MAX_nonneg | done |].
  intros x Hx. rewrite Forall_forall in Hall. exact (Hall x Hx).
Qed.

(** ** Running the primitives *)

Lemma bind_Ok {A B} (c : M A) (k : A → M B) st a st' :
  c st = Ok a st' → (c ≫= k) st = k a st'.
Proof. unfold mbind, M_bind, bind. by intros ->. Qed.

Lemma bind_Crash {A B} (c : M A) (k : A → M B) st :
  c st = Crash → (c ≫= k) st = Crash.
Proof. unfold mbind, M_bind, bind. by intros ->. Qed.

Lemma mret_Ok {A} (a : A) st : (mret a : M A) st = Ok a st.
Proof. done. Qed.

Lemma load_node_Ok p n st :
  is_null p = false → nodes st !! p = Some n → load_node p st = Ok n st.
Proof. unfold load_node. by intros -> ->. Qed.

Lemma store_node_Ok p n n' st :
  is_null p = false → nodes st !! p = Some n →
  store_node p n' st = Ok () (with_nodes <[p := n']> st).
Proof. unfold store_node. by intros -> ->. Qed.

Lemma get_data_Ok p n st :
  is_null p = false → nodes st !! p = Some n →
  get_data p st = Ok (node_data n) st.
Proof.
  intros Hp Hn. unfold get_data.
  by rewrite (bind_Ok _ _ _ _ _ (load_node_Ok _ _ _ Hp Hn)).
Qed.

Lemma get_next_Ok p n st :
  is_null p = false → nodes st !! p = Some n →
  get_next p st = Ok (node_next n) st.
Proof.
  intros Hp Hn. unfold get_next.
  by rewrite (bind_Ok _ _ _ _ _ (load_node_Ok _ _ _ Hp Hn)).
Qed.

Lemma get_next_NULL st : get_next NULL st = Crash.
Proof. done. Qed.

Lemma set_data_Ok p n v st :
  is_null p = false → nodes st !! p = Some n →
  set_data p v st = Ok () (with_nodes <[p := Node v (node_next n)]> st).
Proof.
  intros Hp Hn. unfold set_data.
  rewrite (bind_Ok _ _ _ _ _ (load_node_Ok _ _ _ Hp Hn)).
  by apply store_node_Ok with n.
Qed.

Lemma set_next_Ok p n v st :
  is_null p = false → nodes st !! p = Some n →
  set_next p v st = Ok () (with_nodes <[p := Node (node_data n) v]> st).
Proof.
  intros Hp Hn. unfold set_next.
  rewrite (bind_Ok _ _ _ _ _ (load_node_Ok _ _ _ Hp Hn)).
  by apply store_node_Ok with n.
Qed.

Lemma free_node_Ok p n st :
  is_null p = false → nodes st !! p = Some n →
  free_node p st = Ok () (with_nodes (delete p) st).
Proof. unfold free_node. by intros -> ->. Qed.

Lemma load_list_Ok p l st :
  is_null p = false → lists st !! p = Some l → load_list p st = Ok l st.
Proof. unfold load_list. by intros -> ->. Qed.

Lemma store_list_Ok p l l' st :
  is_null p = false → lists st !! p = Some l →
  store_list p l' st = Ok () (with_lists <[p := l']> st).
Proof. unfold store_list. by intros -> ->. Qed.

Lemma get_head_Ok p l st :
  is_null p = false → lists st !! p = Some l →
  get_head p st = Ok (ll_head l) st.
Proof.
  intros Hp Hl. unfold get_head.
  by rewrite (bind_Ok _ _ _ _ _ (load_list_Ok _ _ _ Hp Hl)).
Qed.

Lemma get_size_Ok p l st :
  is_null p = false → lists st !! p = Some l →
  get_size p st = Ok (ll_size l) st.
Proof.
  intros Hp Hl. unfold get_size.
  by rewrite (bind_Ok _ _ _ _ _ (load_list_Ok _ _ _ Hp Hl)).
Qed.

Lemma set_head_Ok p l v st :
  is_null p = false → lists st !! p = Some l →
  set_head p v st = Ok () (with_lists <[p := LinkedList v (ll_size l)]> st).
Proof.
  intros Hp Hl. unfold set_head.
  rewrite (bind_Ok _ _ _ _ _ (load_list_Ok _ _ _ Hp Hl)).
  by apply store_list_Ok with l.
Qed.

Lemma set_size_Ok p l v st :
  is_null p = false → lists st !! p = Some l →
  set_size p v st = Ok () (with_lists <[p := LinkedList (ll_head l) v]> st).
Proof.
  intros Hp Hl. unfold set_size.
  rewrite (bind_Ok _ _ _ _ _ (load_list_Ok _ _ _ Hp Hl)).
  by apply store_list_Ok with l.
Qed.

Lemma incr_size_Ok p l st :
  is_null p = false → lists st !! p = Some l →
  incr_size p st =
    Ok () (with_lists <[p := LinkedList (ll_head l) (wrap (ll_size l + 1))]> st).
Proof.
  intros Hp Hl. unfold incr_size.
  rewrite (bind_Ok _ _ _ _ _ (get_size_Ok _ _ _ Hp Hl)).
  by apply set_size_Ok.
Qed.

Lemma decr_size_Ok p l st :
  is_null p = false → lists st !! p = Some l →
  decr_size p st =
    Ok () (with_lists <[p := LinkedList (ll_head l) (wrap (ll_size l - 1))]> st).
Proof.
  intros Hp Hl. unfold decr_size.
  rewrite (bind_Ok _ _ _ _ _ (get_size_Ok _ _ _ Hp Hl)).
  by apply set_size_Ok.
Qed.

Lemma malloc_fptr_fail st :
  alloc_fails st → malloc_fptr st = Ok NULL (pop_alloc st).
Proof.
  unfold alloc_fails, malloc_fptr, pop_alloc.
  destruct st as [nd ls its [|p rest]]; simpl; [done | by intros ->].
Qed.

Lemma malloc_node_fail st :
  alloc_fails st → malloc_node st = Ok NULL (pop_alloc st).
Proof.
  intros Hf. unfold malloc_node.
  by rewrite (bind_Ok _ _ _ _ _ (malloc_fptr_fail _ Hf)).
Qed.

Lemma malloc_node_Ok st p rest :
  allocs st = p :: rest → p ≠ NULL →
  malloc_node st =
    Ok p (State (<[p := Node 0 NULL]> (nodes st)) (lists st) (iters st) rest).
Proof.
  unfold malloc_node, malloc_fptr, mbind, M_bind, bind.
  intros -> Hp. apply is_null_false in Hp. by rewrite Hp.
Qed.

Lemma wrap_small z : 0 ≤ z ≤ SIZE_MAX → wrap z = z.
Proof. intros ?. unfold wrap. apply Z.mod_small. lia. Qed.

(** Taking one step of a computation whose head is a primitive. *)
Ltac mstep_with lem :=
  erewrite bind_Ok; [| eapply lem; cbn [nodes lists iters allocs with_nodes with_lists with_iters]].

Ltac msimpl :=
  cbn [nodes lists iters allocs with_nodes with_lists with_iters
       node_data node_next ll_head ll_size
       it_ll it_current_index it_current_node it_data] in *.

(** ** The loops on a well-formed chain *)

Lemma last_ptr_nil prev : last_ptr prev [] = prev.
Proof. done. Qed.

Lemma last_ptr_cons prev c cells : last_ptr prev (c :: cells) = last_ptr c.1 cells.
Proof.
  unfold last_ptr. rewrite fmap_cons. generalize (c.1) (cells.*1).
  intros x l. revert prev x.
  induction l as [|y l IH]; intros prev x; [done|].
  change (last (x :: y :: l)) with (last (y :: l)).
  by rewrite (IH prev y), (IH x y).
Qed.

Lemma last_ptr_snoc prev cells c : last_ptr prev (cells ++ [c]) = c.1.
Proof. unfold last_ptr. rewrite fmap_app. simpl. by rewrite last_snoc. Qed.

Lemma walk_loop_Ok st c1 : ∀ fuel index prev cur idx m,
  lseg (nodes st) cur c1 m →
  0 ≤ idx → idx + Z.of_nat (length c1) ≤ SIZE_MAX →
  idx + Z.of_nat (length c1) ≤ index →
  idx + Z.of_nat (length c1) = index ∨ m = NULL →
  (length c1 < fuel)%nat →
  walk_loop fuel index prev cur idx st =
    Ok (last_ptr prev c1, m, idx + Z.of_nat (length c1)) st.
Proof.
  induction c1 as [|[l d] c1 IH]; intros fuel index prev cur idx m Hseg Hidx Hmax Hle Hstop Hfuel;
    (destruct fuel as [|fuel]; [simpl in Hfuel; lia|]);
    cbn [lseg length walk_loop last_loop count_loop find_loop fmap list_fmap fst snd] in *.
  - subst m. rewrite Z.add_0_r in *.
    destruct Hstop as [Heq | Heq]; subst.
    + rewrite Z.ltb_irrefl, andb_false_r. done.
    + done.
  - destruct Hseg as (-> & Hv & n & Hn & Hrest).
    rewrite (valid_ptr_not_null _ Hv). cbn [negb andb].
    assert ((idx <? index) = true) as -> by (apply Z.ltb_lt; lia).
    rewrite (bind_Ok _ _ _ _ _ (get_next_Ok _ _ _ (valid_ptr_not_null _ Hv) Hn)).
    cbn [node_next node_data fst snd]. rewrite wrap_small by lia.
    rewrite (IH fuel index l n (idx + 1) m); try done; try lia.
    rewrite last_ptr_cons. cbn [fst].
    by replace (idx + 1 + Z.of_nat (length c1)) with (idx + Z.of_nat (S (length c1))) by lia.
Qed.

Lemma last_loop_Ok st cells : ∀ fuel cur c,
  lseg (nodes st) cur (cells ++ [c]) NULL →
  (length cells < fuel)%nat →
  last_loop fuel cur st = Ok c.1 st.
Proof.
  induction cells as [|[l d] cells IH]; intros fuel cur c Hseg Hfuel;
    (destruct fuel as [|fuel]; [simpl in Hfuel; lia|]);
    cbn [lseg length walk_loop last_loop count_loop find_loop fmap list_fmap fst snd] in *.
  - destruct Hseg as (-> & Hv & n & Hn & ->).
    rewrite (bind_Ok _ _ _ _ _ (get_next_Ok _ _ _ (valid_ptr_not_null _ Hv) Hn)).
    done.
  - destruct Hseg as (-> & Hv & n & Hn & Hrest).
    rewrite (bind_Ok _ _ _ _ _ (get_next_Ok _ _ _ (valid_ptr_not_null _ Hv) Hn)).
    cbn [node_next node_data fst snd].
    assert (is_null n = false) as ->.
    { destruct cells as [|c' cells]; simpl in Hrest;
        destruct Hrest as (_ & Hv' & _); by apply valid_ptr_not_null. }
    apply IH; [done | lia].
Qed.

Lemma count_loop_Ok st cells : ∀ fuel cur sz,
  lseg (nodes st) cur cells NULL →
  0 ≤ sz → sz + Z.of_nat (length cells) ≤ SIZE_MAX →
  (length cells < fuel)%nat →
  count_loop fuel cur sz st = Ok (sz + Z.of_nat (length cells)) st.
Proof.
  induction cells as [|[l d] cells IH]; intros fuel cur sz Hseg Hsz Hmax Hfuel;
    (destruct fuel as [|fuel]; [simpl in Hfuel; lia|]);
    cbn [lseg length walk_loop last_loop count_loop find_loop fmap list_fmap fst snd] in *.
  - subst cur. rewrite Z.add_0_r. done.
  - destruct Hseg as (-> & Hv & n & Hn & Hrest).
    rewrite (valid_ptr_not_null _ Hv).
    rewrite (bind_Ok _ _ _ _ _ (get_next_Ok _ _ _ (valid_ptr_not_null _ Hv) Hn)).
    cbn [node_next node_data fst snd]. rewrite wrap_small by lia.
    rewrite IH; try done; try lia.
    by replace (sz + 1 + Z.of_nat (length cells)) with (sz + Z.of_nat (S (length cells))) by lia.
Qed.

Lemma find_loop_found st c1 : ∀ fuel data cur idx c c2,
  lseg (nodes st) cur (c1 ++ c :: c2) NULL →
  c.2 = data → data ∉ c1.*2 →
  0 ≤ idx → idx + Z.of_nat (length c1) ≤ SIZE_MAX →
  (length c1 < fuel)%nat →
  find_loop fuel data cur idx st = Ok (idx + Z.of_nat (length c1)) st.
Proof.
  induction c1 as [|[l d] c1 IH]; intros fuel data cur idx c c2 Hseg Hc Hnin Hidx Hmax Hfuel;
    (destruct fuel as [|fuel]; [simpl in Hfuel; lia|]);
    cbn [lseg length walk_loop last_loop count_loop find_loop fmap list_fmap fst snd] in *.
  - destruct Hseg as (-> & Hv & n & Hn & Hrest).
    rewrite (valid_ptr_not_null _ Hv).
    rewrite (bind_Ok _ _ _ _ _ (get_data_Ok _ _ _ (valid_ptr_not_null _ Hv) Hn)).
    cbn [node_next node_data fst snd]. rewrite Hc, Z.eqb_refl, Z.add_0_r. done.
  - destruct Hseg as (-> & Hv & n & Hn & Hrest).
    apply not_elem_of_cons in Hnin as [Hne Hnin].
    rewrite (valid_ptr_not_null _ Hv).
    rewrite (bind_Ok _ _ _ _ _ (get_data_Ok _ _ _ (valid_ptr_not_null _ Hv) Hn)).
    cbn [node_next node_data fst snd]. assert ((d =? data) = false) as -> by (apply Z.eqb_neq; congruence).
    rewrite (bind_Ok _ _ _ _ _ (get_next_Ok _ _ _ (valid_ptr_not_null _ Hv) Hn)).
    cbn [node_next node_data fst snd]. rewrite wrap_small by lia.
    rewrite (IH fuel data n (idx + 1) c c2); try done; try lia.
    by replace (idx + 1 + Z.of_nat (length c1)) with (idx + Z.of_nat (S (length c1))) by lia.
Qed.

Lemma find_loop_miss st cells : ∀ fuel data cur idx,
  lseg (nodes st) cur cells NULL →
  data ∉ cells.*2 →
  0 ≤ idx → idx + Z.of_nat (length cells) ≤ SIZE_MAX →
  (length cells < fuel)%nat →
  find_loop fuel data cur idx st = Ok SIZE_MAX st.
Proof.
  induction cells as [|[l d] cells IH]; intros fuel data cur idx Hseg Hnin Hidx Hmax Hfuel;
    (destruct fuel as [|fuel]; [simpl in Hfuel; lia|]);
    cbn [lseg length walk_loop last_loop count_loop find_loop fmap list_fmap fst snd] in *.
  - subst cur. done.
  - destruct Hseg as (-> & Hv & n & Hn & Hrest).
    apply not_elem_of_cons in Hnin as [Hne Hnin].
    rewrite (valid_ptr_not_null _ Hv).
    rewrite (bind_Ok _ _ _ _ _ (get_data_Ok _ _ _ (valid_ptr_not_null _ Hv) Hn)).
    cbn [node_next node_data fst snd]. assert ((d =? data) = false) as -> by (apply Z.eqb_neq; congruence).
    rewrite (bind_Ok _ _ _ _ _ (get_next_Ok _ _ _ (valid_ptr_not_null _ Hv) Hn)).
    cbn [node_next node_data fst snd]. rewrite wrap_small by lia.
    apply IH; try done; lia.
Qed.

(** ** The functions on a well-formed list *)

Lemma insert_front_Ok st ll hd sz v p rest :
  ll ≠ NULL → lists st !! ll = Some (LinkedList hd sz) →
  allocs st = p :: rest → p ≠ NULL →
  linked_list_insert_front ll v st =
    Ok true (State (<[p := Node v hd]> (nodes st))
                   (<[ll := LinkedList p (wrap (sz + 1))]> (lists st))
                   (iters st) rest).
Proof.
  intros Hll Hhdr Hal Hp. unfold linked_list_insert_front.
  pose proof (malloc_node_Ok _ _ _ Hal Hp) as Hm.
  apply is_null_false in Hll, Hp. rewrite Hll.
  rewrite (bind_Ok _ _ _ _ _ Hm), Hp.
  mstep_with set_data_Ok; [|done|apply lookup_insert_eq].
  msimpl.
  mstep_with get_head_Ok; [|done|done]. msimpl.
  mstep_with set_next_Ok; [|done|apply lookup_insert_eq]. msimpl.
  mstep_with set_head_Ok; [|done|done]. msimpl.
  mstep_with incr_size_Ok; [|done|apply lookup_insert_eq]. msimpl.
  rewrite mret_Ok. unfold with_nodes, with_lists. msimpl.
  rewrite !insert_insert_eq. done.
Qed.


Lemma insert_end_Ok_nil st fuel ll sz v p rest :
  ll ≠ NULL → lists st !! ll = Some (LinkedList NULL sz) →
  allocs st = p :: rest → p ≠ NULL →
  linked_list_insert_end fuel ll v st =
    Ok true (State (<[p := Node v NULL]> (nodes st))
                   (<[ll := LinkedList p (wrap (sz + 1))]> (lists st))
                   (iters st) rest).
Proof.
  intros Hll Hhdr Hal Hp. unfold linked_list_insert_end.
  pose proof (malloc_node_Ok _ _ _ Hal Hp) as Hm.
  apply is_null_false in Hll, Hp. rewrite Hll.
  mstep_with get_head_Ok; [|done|done]. msimpl.
  rewrite (bind_Ok _ _ _ _ _ Hm), Hp.
  mstep_with set_data_Ok; [|done|apply lookup_insert_eq]. msimpl.
  mstep_with set_next_Ok; [|done|apply lookup_insert_eq]. msimpl.
  change (is_null NULL) with true. cbn iota.
  mstep_with set_head_Ok; [|done|done]. msimpl.
  mstep_with incr_size_Ok; [|done|apply lookup_insert_eq]. msimpl.
  rewrite mret_Ok. unfold with_nodes, with_lists. msimpl.
  rewrite !insert_insert_eq. done.
Qed.

Lemma insert_end_Ok_snoc st fuel ll hd sz cells l d v p rest :
  ll ≠ NULL → lists st !! ll = Some (LinkedList hd sz) →
  lseg (nodes st) hd (cells ++ [(l, d)]) NULL →
  allocs st = p :: rest → p ≠ NULL → nodes st !! p = None →
  (length cells < fuel)%nat →
  linked_list_insert_end fuel ll v st =
    Ok true (State (<[l := Node d p]> (<[p := Node v NULL]> (nodes st)))
                   (<[ll := LinkedList hd (wrap (sz + 1))]> (lists st))
                   (iters st) rest).
Proof.
  intros Hll Hhdr Hseg Hal Hp Hfresh Hfuel. unfold linked_list_insert_end.
  pose proof (malloc_node_Ok _ _ _ Hal Hp) as Hm.
  pose proof (lseg_fresh _ _ _ _ _ Hseg Hfresh) as Hnin.
  assert (is_null hd = false) as Hhd.
  { destruct cells; simpl in Hseg; destruct Hseg as (_ & Hv & _);
      by apply valid_ptr_not_null. }
  assert (nodes st !! l = Some (Node d NULL) ∧ valid_ptr l) as [Hl Hvl].
  { apply lseg_app in Hseg as (m & _ & (-> & Hv & n & Hn & <-)). done. }
  assert (l ≠ p) as Hlp by congruence.
  apply is_null_false in Hll, Hp. rewrite Hll.
  mstep_with get_head_Ok; [|done|done]. msimpl.
  rewrite (bind_Ok _ _ _ _ _ Hm), Hp.
  mstep_with set_data_Ok; [|done|apply lookup_insert_eq]. msimpl.
  mstep_with set_next_Ok; [|done|apply lookup_insert_eq]. msimpl.
  rewrite Hhd.
  erewrite bind_Ok; cycle 1.
  { erewrite bind_Ok; [|eapply (last_loop_Ok _ cells _ hd (l, d)); [|exact Hfuel]].
    - eapply set_next_Ok; [by apply valid_ptr_not_null|].
      msimpl. rewrite !lookup_insert_ne by done. exact Hl.
    - msimpl. by repeat apply lseg_insert_ne. }
  msimpl.
  mstep_with incr_size_Ok; [|done|done]. msimpl.
  rewrite mret_Ok. unfold with_nodes, with_lists. msimpl.
  rewrite !insert_insert_eq. done.
Qed.

Lemma lseg_split_at h hd c1 l d c2 :
  lseg h hd (c1 ++ (l, d) :: c2) NULL →
  ∃ n, lseg h hd c1 l ∧ valid_ptr l ∧ h !! l = Some (Node d n) ∧
       lseg h n c2 NULL ∧ (l ∉ c1.*1) ∧ (l ∉ c2.*1).
Proof.
  intros Hseg. pose proof (lseg_NoDup _ _ _ Hseg) as Hnd.
  rewrite fmap_app, fmap_cons in Hnd. cbn [fst] in Hnd.
  apply NoDup_app in Hnd as (_ & Hdisj & Hnd).
  apply NoDup_cons in Hnd as [Hn2 _].
  apply lseg_app in Hseg as (m & H1 & (-> & Hv & n & Hn & H2)).
  exists n. repeat (split; [done|]). split; [|done].
  intros Hin. apply (Hdisj _ Hin). by left.
Qed.

Lemma is_list_intro st ll hd cells sz :
  ll ≠ NULL → lseg (nodes st) hd cells NULL →
  lists st !! ll = Some (LinkedList hd (wrap sz)) →
  sz = Z.of_nat (length cells) →
  is_list st ll cells.
Proof.
  intros Hll Hseg Hhdr ->. split; [done|]. exists hd. split; [|done].
  rewrite Hhdr. rewrite wrap_small; [done|].
  pose proof (lseg_length_bound _ _ _ Hseg). lia.
Qed.

Lemma is_list_size st ll cells :
  is_list st ll cells →
  linked_list_size ll st = Ok (Z.of_nat (length cells)) st.
Proof.
  intros (Hll & hd & Hhdr & _). unfold linked_list_size.
  apply is_null_false in Hll. rewrite Hll.
  by rewrite (get_size_Ok _ _ _ Hll Hhdr).
Qed.

Lemma is_list_head_NULL st ll cells hd sz :
  is_list st ll cells → lists st !! ll = Some (LinkedList hd sz) →
  (sz = 0 ↔ hd = NULL).
Proof.
  intros (Hll & hd' & Hhdr & Hseg) Hhdr'. rewrite Hhdr in Hhdr'.
  injection Hhdr' as -> <-. destruct cells as [|c cells]; simpl in *.
  - done.
  - destruct Hseg as (_ & [? ?] & _). unfold NULL. split; lia.
Qed.

Lemma insert_front_is_list st ll cells v p rest :
  is_list st ll cells → alloc_ok st → allocs st = p :: rest → p ≠ NULL →
  ∃ st', linked_list_insert_front ll v st = Ok true st' ∧
         is_list st' ll ((p, v) :: cells) ∧
         iters st' = iters st ∧ allocs st' = rest.
Proof.
  intros (Hll & hd & Hhdr & Hseg) Hok Hal Hp.
  destruct (Hok _ _ Hal Hp) as (Hv & Hfresh & _).
  eexists. split; [by eapply insert_front_Ok|].
  split; [|done].
  eapply is_list_intro; [done| |msimpl; apply lookup_insert_eq|cbn [length]; lia].
  msimpl. cbn [lseg fst snd]. split; [done|]. split; [done|].
  exists hd. split; [apply lookup_insert_eq|].
  apply lseg_insert_ne; [|done]. by eapply lseg_fresh.
Qed.

Lemma insert_end_is_list st fuel ll cells v p rest :
  is_list st ll cells → alloc_ok st → allocs st = p :: rest → p ≠ NULL →
  (length cells < fuel)%nat →
  ∃ st', linked_list_insert_end fuel ll v st = Ok true st' ∧
         is_list st' ll (cells ++ [(p, v)]) ∧
         iters st' = iters st ∧ allocs st' = rest.
Proof.
  intros (Hll & hd & Hhdr & Hseg) Hok Hal Hp Hfuel.
  destruct (Hok _ _ Hal Hp) as (Hv & Hfresh & _).
  pose proof (lseg_fresh _ _ _ _ _ Hseg Hfresh) as Hnin.
  destruct cells as [|c0 cells0 _] using rev_ind; [|destruct c0 as [l d]; rename cells0 into cells'].
  - simpl in Hseg. subst hd.
    eexists. split; [by eapply insert_end_Ok_nil|]. split; [|done].
    eapply is_list_intro; [done| |msimpl; apply lookup_insert_eq|done].
    msimpl. cbn [app lseg fst snd]. split; [done|]. split; [done|].
    exists NULL. split; [apply lookup_insert_eq|done].
  - rewrite length_app in Hfuel. cbn [length] in Hfuel.
    eexists. split; [eapply insert_end_Ok_snoc; try done; lia|]. split; [|done].
    eapply is_list_intro; [done| |msimpl; apply lookup_insert_eq|].
    2:{ rewrite !length_app. cbn [length]. lia. }
    msimpl. destruct (lseg_split_at _ _ _ _ _ _ Hseg) as (n & H1 & Hvl & Hl & H2 & Hl1 & _).
    simpl in H2. subst n.
    rewrite fmap_app in Hnin. apply not_elem_of_app in Hnin as [Hp1 Hp2].
    rewrite fmap_cons in Hp2. apply not_elem_of_cons in Hp2 as [Hpl _]. cbn [fst] in Hpl.
    rewrite <- app_assoc. apply lseg_app. exists l. split.
    + by repeat apply lseg_insert_ne.
    + cbn [app lseg fst snd]. split; [done|]. split; [done|].
      exists p. split; [apply lookup_insert_eq|].
      split; [done|]. split; [done|]. exists NULL.
      split; [|done]. rewrite lookup_insert_ne by done. apply lookup_insert_eq.
Qed.

Lemma insert_mid_Ok st fuel ll hd sz c1 l d m index v p rest :
  ll ≠ NULL → lists st !! ll = Some (LinkedList hd sz) →
  lseg (nodes st) hd (c1 ++ [(l, d)]) m →
  index = Z.of_nat (length c1) + 1 → index < sz → sz ≤ SIZE_MAX →
  allocs st = p :: rest → p ≠ NULL → nodes st !! p = None →
  (length c1 + 1 < fuel)%nat →
  linked_list_insert fuel ll index v st =
    Ok true (State (<[l := Node d p]> (<[p := Node v m]> (nodes st)))
                   (<[ll := LinkedList hd (wrap (sz + 1))]> (lists st))
                   (iters st) rest).
Proof.
  intros Hll Hhdr Hseg Hidx Hlt Hmax Hal Hp Hfresh Hfuel.
  unfold linked_list_insert.
  pose proof (malloc_node_Ok _ _ _ Hal Hp) as Hm.
  assert (nodes st !! l = Some (Node d m) ∧ valid_ptr l) as [Hl Hvl].
  { apply lseg_app in Hseg as (m' & _ & (-> & Hv & n & Hn & <-)). done. }
  assert (l ≠ p) as Hlp by congruence.
  apply is_null_false in Hll, Hp. rewrite Hll.
  mstep_with get_size_Ok; [|done|done]. msimpl.
  assert ((index <? 0) = false) as -> by (apply Z.ltb_ge; lia).
  assert ((index >? sz) = false) as -> by (rewrite Z.gtb_ltb; apply Z.ltb_ge; lia).
  assert ((index =? 0) = false) as -> by (apply Z.eqb_neq; lia).
  cbn [orb].
  mstep_with get_size_Ok; [|done|done]. msimpl.
  assert ((index =? sz) = false) as -> by (apply Z.eqb_neq; lia).
  mstep_with get_head_Ok; [|done|done]. msimpl.
  erewrite bind_Ok; cycle 1.
  { eapply (walk_loop_Ok _ (c1 ++ [(l, d)]) _ _ _ _ _ m); try done.
    - rewrite length_app. cbn [length]. lia.
    - rewrite length_app. cbn [length]. lia.
    - left. rewrite length_app. cbn [length]. lia.
    - rewrite length_app. cbn [length]. lia. }
  rewrite last_ptr_snoc. cbn [fst].
  rewrite (bind_Ok _ _ _ _ _ Hm), Hp.
  mstep_with set_data_Ok; [|done|apply lookup_insert_eq]. msimpl.
  mstep_with set_next_Ok; [|done|apply lookup_insert_eq]. msimpl.
  mstep_with set_next_Ok; [|by apply valid_ptr_not_null|]; cycle 1.
  { rewrite !lookup_insert_ne by done. exact Hl. }
  msimpl.
  mstep_with incr_size_Ok; [|done|done]. msimpl.
  rewrite mret_Ok. unfold with_nodes, with_lists. msimpl.
  rewrite !insert_insert_eq. done.
Qed.

Lemma insert_mid_is_list st fuel ll cells index v p rest :
  is_list st ll cells → alloc_ok st → allocs st = p :: rest → p ≠ NULL →
  0 < index < Z.of_nat (length cells) →
  (length cells < fuel)%nat →
  ∃ st', linked_list_insert fuel ll index v st = Ok true st' ∧
         is_list st' ll (take (Z.to_nat index) cells ++ (p, v) :: drop (Z.to_nat index) cells) ∧
         iters st' = iters st ∧ allocs st' = rest.
Proof.
  intros (Hll & hd & Hhdr & Hseg) Hok Hal Hp Hidx Hfuel.
  destruct (Hok _ _ Hal Hp) as (Hv & Hfresh & _).
  pose proof (lseg_fresh _ _ _ _ _ Hseg Hfresh) as Hnin.
  pose proof (lseg_length_bound _ _ _ Hseg) as Hbound.
  set (i := Z.to_nat index) in *.
  assert (length (take i cells) = i) as Hlen by (rewrite length_take; lia).
  destruct (take i cells) as [|c0 c1 _] eqn:Htake using rev_ind;
    [simpl in Hlen; lia|]. destruct c0 as [l d].
  rewrite length_app in Hlen. cbn [length] in Hlen.
  rewrite <- (take_drop i cells) in Hseg, Hnin. rewrite Htake in Hseg, Hnin.
  rewrite <- app_assoc in Hseg. cbn [app] in Hseg.
  destruct (lseg_split_at _ _ _ _ _ _ Hseg) as (m & H1 & Hvl & Hl & H2 & Hl1 & Hl2).
  rewrite !fmap_app in Hnin. apply not_elem_of_app in Hnin as [Hnin Hp2].
  apply not_elem_of_app in Hnin as [Hp1 Hpl].
  rewrite fmap_cons in Hpl. apply not_elem_of_cons in Hpl as [Hpl _]. cbn [fst] in Hpl.
  eexists. split.
  { eapply (insert_mid_Ok _ _ _ _ _ c1 l d m); try done; try lia.
    apply lseg_app. exists l. split; [done|].
    cbn [lseg fst snd]. eauto 6. }
  split; [|done].
  eapply is_list_intro; [done| |msimpl; apply lookup_insert_eq|].
  2:{ rewrite !length_app. cbn [length]. rewrite length_drop. lia. }
  msimpl. rewrite <- app_assoc. apply lseg_app. exists l. split.
  - by repeat apply lseg_insert_ne.
  - cbn [app lseg fst snd]. split; [done|]. split; [done|].
    exists p. split; [apply lookup_insert_eq|].
    split; [done|]. split; [done|]. exists m.
    split; [rewrite lookup_insert_ne by done; apply lookup_insert_eq|].
    by repeat apply lseg_insert_ne.
Qed.

Lemma alloc_cases st :
  alloc_fails st ∨ ∃ p rest, allocs st = p :: rest ∧ p ≠ NULL.
Proof.
  unfold alloc_fails. destruct (allocs st) as [|p rest]; [by left|].
  destruct (decide (p = NULL)); [by left | right; eauto].
Qed.

Lemma alloc_fails_not_succeeds st : alloc_fails st → ¬ alloc_succeeds st.
Proof.
  unfold alloc_fails, alloc_succeeds.
  destruct (allocs st); [by intros _ ? | by intros -> ?].
Qed.

Lemma alloc_succeeds_inv st :
  alloc_succeeds st ↔ ∃ p rest, allocs st = p :: rest ∧ p ≠ NULL.
Proof.
  unfold alloc_succeeds. destruct (allocs st) as [|p rest].
  - split; [done | by intros (? & ? & ? & ?)].
  - split; [eauto | by intros (? & ? & [= -> ->] & ?)].
Qed.

Lemma insert_front_fail st ll v :
  ll ≠ NULL → alloc_fails st →
  linked_list_insert_front ll v st = Ok false (pop_alloc st).
Proof.
  intros Hll Hf. unfold linked_list_insert_front.
  apply is_null_false in Hll. rewrite Hll.
  by rewrite (bind_Ok _ _ _ _ _ (malloc_node_fail _ Hf)).
Qed.

Lemma insert_end_fail st fuel ll hdr v :
  ll ≠ NULL → lists st !! ll = Some hdr → alloc_fails st →
  linked_list_insert_end fuel ll v st = Ok false (pop_alloc st).
Proof.
  intros Hll Hhdr Hf. unfold linked_list_insert_end.
  apply is_null_false in Hll. rewrite Hll.
  mstep_with get_head_Ok; [|done|done].
  by rewrite (bind_Ok _ _ _ _ _ (malloc_node_fail _ Hf)).
Qed.

Lemma insert_NULL st fuel index v :
  linked_list_insert fuel NULL index v st = Ok false st.
Proof. done. Qed.

Lemma insert_zero st fuel ll hdr v :
  ll ≠ NULL → lists st !! ll = Some hdr → 0 ≤ ll_size hdr →
  linked_list_insert fuel ll 0 v st = linked_list_insert_front ll v st.
Proof.
  intros Hll Hhdr Hsz. unfold linked_list_insert.
  apply is_null_false in Hll. rewrite Hll.
  mstep_with get_size_Ok; [|done|done].
  assert ((0 >? ll_size hdr) = false) as -> by (rewrite Z.gtb_ltb; apply Z.ltb_ge; lia).
  done.
Qed.

Lemma insert_at_size st fuel ll hdr v :
  ll ≠ NULL → lists st !! ll = Some hdr → 0 < ll_size hdr →
  linked_list_insert fuel ll (ll_size hdr) v st = linked_list_insert_end fuel ll v st.
Proof.
  intros Hll Hhdr Hsz. unfold linked_list_insert.
  apply is_null_false in Hll. rewrite Hll.
  mstep_with get_size_Ok; [|done|done].
  assert ((ll_size hdr <? 0) = false) as -> by (apply Z.ltb_ge; lia).
  assert ((ll_size hdr >? ll_size hdr) = false) as ->
    by (rewrite Z.gtb_ltb; apply Z.ltb_ge; lia).
  assert ((ll_size hdr =? 0) = false) as -> by (apply Z.eqb_neq; lia).
  cbn [orb].
  mstep_with get_size_Ok; [|done|done].
  by rewrite Z.eqb_refl.
Qed.

Lemma insert_out_of_range st fuel ll hdr index v :
  ll ≠ NULL → lists st !! ll = Some hdr → index < 0 ∨ ll_size hdr < index →
  linked_list_insert fuel ll index v st = Ok false st.
Proof.
  intros Hll Hhdr Hidx. unfold linked_list_insert.
  apply is_null_false in Hll. rewrite Hll.
  mstep_with get_size_Ok; [|done|done].
  assert ((index <? 0) || (index >? ll_size hdr) = true) as ->; [|done].
  apply orb_true_iff. rewrite Z.gtb_ltb, !Z.ltb_lt. lia.
Qed.

Lemma insert_mid_fail st fuel ll cells index v :
  is_list st ll cells → alloc_fails st →
  0 < index < Z.of_nat (length cells) →
  (length cells < fuel)%nat →
  linked_list_insert fuel ll index v st = Ok false (pop_alloc st).
Proof.
  intros (Hll & hd & Hhdr & Hseg) Hf Hidx Hfuel.
  pose proof (lseg_length_bound _ _ _ Hseg) as Hbound.
  unfold linked_list_insert.
  apply is_null_false in Hll. rewrite Hll.
  mstep_with get_size_Ok; [|done|done]. msimpl.
  assert ((index <? 0) = false) as -> by (apply Z.ltb_ge; lia).
  assert ((index >? Z.of_nat (length cells)) = false) as ->
    by (rewrite Z.gtb_ltb; apply Z.ltb_ge; lia).
  assert ((index =? 0) = false) as -> by (apply Z.eqb_neq; lia).
  cbn [orb].
  mstep_with get_size_Ok; [|done|done]. msimpl.
  assert ((index =? Z.of_nat (length cells)) = false) as -> by (apply Z.eqb_neq; lia).
  mstep_with get_head_Ok; [|done|done]. msimpl.
  rewrite <- (take_drop (Z.to_nat index) cells) in Hseg.
  apply lseg_app in Hseg as (m & H1 & H2).
  assert (length (take (Z.to_nat index) cells) = Z.to_nat index) as Hlen
    by (rewrite length_take; lia).
  erewrite bind_Ok; cycle 1.
  { eapply (walk_loop_Ok _ _ _ _ _ _ _ m H1); try lia. }
  cbv beta iota.
  by rewrite (bind_Ok _ _ _ _ _ (malloc_node_fail _ Hf)).
Qed.

Lemma remove_NULL st fuel index :
  linked_list_remove fuel NULL index st = Ok false st.
Proof. done. Qed.

Lemma remove_out_of_range st fuel ll hdr index :
  ll ≠ NULL → lists st !! ll = Some hdr → index < 0 ∨ ll_size hdr < index →
  linked_list_remove fuel ll index st = Ok false st.
Proof.
  intros Hll Hhdr Hidx. unfold linked_list_remove.
  apply is_null_false in Hll. rewrite Hll.
  mstep_with get_size_Ok; [|done|done].
  assert ((index <? 0) || (index >? ll_size hdr) = true) as ->; [|done].
  apply orb_true_iff. rewrite Z.gtb_ltb, !Z.ltb_lt. lia.
Qed.

(** Index 0 on a list whose head is [NULL]: [cur->next] is read through
    the null pointer. *)
Lemma remove_zero_empty_Crash st fuel ll sz :
  ll ≠ NULL → lists st !! ll = Some (LinkedList NULL sz) → 0 ≤ sz →
  linked_list_remove fuel ll 0 st = Crash.
Proof.
  intros Hll Hhdr Hsz. unfold linked_list_remove.
  apply is_null_false in Hll. rewrite Hll.
  mstep_with get_size_Ok; [|done|done]. msimpl.
  assert ((0 >? sz) = false) as -> by (rewrite Z.gtb_ltb; apply Z.ltb_ge; lia).
  cbn [Z.ltb Z.compare orb].
  mstep_with get_head_Ok; [|done|done]. msimpl.
  cbn [Z.eqb]. by rewrite (bind_Crash _ _ _ (get_next_NULL _)).
Qed.

Lemma remove_zero_Ok st fuel ll l d n sz :
  ll ≠ NULL → lists st !! ll = Some (LinkedList l sz) → 0 ≤ sz →
  valid_ptr l → nodes st !! l = Some (Node d n) →
  linked_list_remove fuel ll 0 st =
    Ok true (State (delete l (nodes st))
                   (<[ll := LinkedList n (wrap (sz - 1))]> (lists st))
                   (iters st) (allocs st)).
Proof.
  intros Hll Hhdr Hsz Hv Hl. unfold linked_list_remove.
  apply is_null_false in Hll. rewrite Hll.
  mstep_with get_size_Ok; [|done|done]. msimpl.
  assert ((0 >? sz) = false) as -> by (rewrite Z.gtb_ltb; apply Z.ltb_ge; lia).
  cbn [Z.ltb Z.compare orb].
  mstep_with get_head_Ok; [|done|done]. msimpl.
  cbn [Z.eqb].
  mstep_with get_next_Ok; [|by apply valid_ptr_not_null|done]. msimpl.
  mstep_with set_head_Ok; [|done|done]. msimpl.
  mstep_with free_node_Ok; [|by apply valid_ptr_not_null|done]. msimpl.
  mstep_with decr_size_Ok; [|done|apply lookup_insert_eq]. msimpl.
  rewrite mret_Ok. unfold with_nodes, with_lists. msimpl.
  by rewrite !insert_insert_eq.
Qed.

Lemma remove_mid_Ok st fuel ll hd sz c1 l d t dt n index :
  ll ≠ NULL → lists st !! ll = Some (LinkedList hd sz) →
  lseg (nodes st) hd (c1 ++ [(l, d)]) t →
  valid_ptr t → nodes st !! t = Some (Node dt n) → l ≠ t →
  index = Z.of_nat (length c1) + 1 → index ≤ sz → sz ≤ SIZE_MAX →
  (length c1 + 1 < fuel)%nat →
  linked_list_remove fuel ll index st =
    Ok true (State (delete t (<[l := Node d n]> (nodes st)))
                   (<[ll := LinkedList hd (wrap (sz - 1))]> (lists st))
                   (iters st) (allocs st)).
Proof.
  intros Hll Hhdr Hseg Hvt Ht Hlt Hidx Hle Hmax Hfuel.
  unfold linked_list_remove.
  assert (nodes st !! l = Some (Node d t) ∧ valid_ptr l) as [Hl Hvl].
  { apply lseg_app in Hseg as (m' & _ & (-> & Hv & n' & Hn & <-)). done. }
  apply is_null_false in Hll. rewrite Hll.
  mstep_with get_size_Ok; [|done|done]. msimpl.
  assert ((index <? 0) = false) as -> by (apply Z.ltb_ge; lia).
  assert ((index >? sz) = false) as -> by (rewrite Z.gtb_ltb; apply Z.ltb_ge; lia).
  cbn [orb].
  mstep_with get_head_Ok; [|done|done]. msimpl.
  assert ((index =? 0) = false) as -> by (apply Z.eqb_neq; lia).
  erewrite bind_Ok; cycle 1.
  { eapply (walk_loop_Ok _ (c1 ++ [(l, d)]) _ _ _ _ _ t); try done.
    - rewrite length_app. cbn [length]. lia.
    - rewrite length_app. cbn [length]. lia.
    - left. rewrite length_app. cbn [length]. lia.
    - rewrite length_app. cbn [length]. lia. }
  rewrite last_ptr_snoc. cbn [fst]. cbv beta iota.
  rewrite (valid_ptr_not_null _ Hvt).
  mstep_with get_next_Ok; [|by apply valid_ptr_not_null|done]. msimpl.
  mstep_with set_next_Ok; [|by apply valid_ptr_not_null|done]. msimpl.
  mstep_with set_next_Ok; [|by apply valid_ptr_not_null|]; cycle 1.
  { rewrite lookup_insert_ne by done. exact Ht. }
  msimpl.
  mstep_with free_node_Ok; [|by apply valid_ptr_not_null|apply lookup_insert_eq]. msimpl.
  mstep_with decr_size_Ok; [|done|done]. msimpl.
  rewrite mret_Ok. unfold with_nodes, with_lists. msimpl.
  by rewrite delete_insert_eq.
Qed.

Lemma remove_past_end st fuel ll hd sz cells index :
  ll ≠ NULL → lists st !! ll = Some (LinkedList hd sz) →
  lseg (nodes st) hd cells NULL →
  0 < index ≤ sz → Z.of_nat (length cells) ≤ index →
  (length cells < fuel)%nat →
  linked_list_remove fuel ll index st = Ok false st.
Proof.
  intros Hll Hhdr Hseg Hidx Hlen Hfuel.
  pose proof (lseg_length_bound _ _ _ Hseg) as Hbound.
  unfold linked_list_remove.
  apply is_null_false in Hll. rewrite Hll.
  mstep_with get_size_Ok; [|done|done]. msimpl.
  assert ((index <? 0) = false) as -> by (apply Z.ltb_ge; lia).
  assert ((index >? sz) = false) as -> by (rewrite Z.gtb_ltb; apply Z.ltb_ge; lia).
  cbn [orb].
  mstep_with get_head_Ok; [|done|done]. msimpl.
  assert ((index =? 0) = false) as -> by (apply Z.eqb_neq; lia).
  erewrite bind_Ok; cycle 1.
  { eapply (walk_loop_Ok _ cells _ _ _ _ _ NULL); try done; try lia. }
  done.
Qed.

Lemma remove_is_list st fuel ll cells index :
  is_list st ll cells →
  0 ≤ index < Z.of_nat (length cells) →
  (length cells < fuel)%nat →
  ∃ st', linked_list_remove fuel ll index st = Ok true st' ∧
         is_list st' ll (take (Z.to_nat index) cells ++ drop (S (Z.to_nat index)) cells) ∧
         iters st' = iters st ∧ allocs st' = allocs st.
Proof.
  intros (Hll & hd & Hhdr & Hseg) Hidx Hfuel.
  pose proof (lseg_length_bound _ _ _ Hseg) as Hbound.
  destruct (decide (index = 0)) as [-> | Hnz].
  - destruct cells as [|[l d] cells]; [simpl in Hidx; lia|].
    destruct (lseg_split_at _ _ [] _ _ _ Hseg) as (n & Hhd & Hvl & Hl & H2 & _ & Hl2).
    simpl in Hhd. subst hd.
    eexists. split; [eapply remove_zero_Ok; try done; lia|]. split; [|done].
    change (Z.to_nat 0) with 0%nat. cbn [take drop app]. rewrite drop_0.
    eapply is_list_intro; [done| |msimpl; apply lookup_insert_eq|cbn [length]; lia].
    msimpl. by apply lseg_delete_ne.
  - set (i := Z.to_nat index) in *.
    assert (length (take i cells) = i) as Hlen by (rewrite length_take; lia).
    assert (length (drop i cells) = (length cells - i)%nat) as Hlen' by apply length_drop.
    pose proof (take_drop i cells) as Hcells.
    destruct (take i cells) as [|c0 c1 _] using rev_ind; [simpl in Hlen; lia|].
    destruct c0 as [l d].
    destruct (drop i cells) as [|[t dt] c2] eqn:Hdrop; [simpl in Hlen'; lia|].
    assert (drop (S i) cells = c2) as ->.
    { replace (S i) with (i + 1)%nat by lia. by rewrite <- drop_drop, Hdrop. }
    rewrite length_app in Hlen. cbn [length] in Hlen, Hlen'.
    rewrite <- Hcells in Hseg.
    destruct (lseg_split_at _ _ _ _ _ _ Hseg) as (n & H1 & Hvt & Ht & H2 & Ht1 & Ht2).
    rewrite <- app_assoc in Hseg. cbn [app] in Hseg.
    destruct (lseg_split_at _ _ _ _ _ _ Hseg) as (t' & H1' & Hvl & Hl & _ & Hl1 & Hl2).
    rewrite fmap_cons in Hl2. apply not_elem_of_cons in Hl2 as [Hlt Hl2].
    cbn [fst] in Hlt.
    rewrite fmap_app in Ht1. apply not_elem_of_app in Ht1 as [Ht1 _].
    eexists. split.
    { eapply (remove_mid_Ok _ _ _ _ _ c1 l d t dt n); try done; lia. }
    split; [|done].
    eapply is_list_intro; [done| |msimpl; apply lookup_insert_eq|].
    2:{ rewrite !length_app. cbn [length]. lia. }
    msimpl. rewrite <- app_assoc. apply lseg_app. exists l. split.
    + apply lseg_delete_ne; [done|]. by apply lseg_insert_ne.
    + cbn [app lseg fst snd]. split; [done|]. split; [done|]. exists n. split.
      * rewrite lookup_delete_ne by done. apply lookup_insert_eq.
      * apply lseg_delete_ne; [done|]. by apply lseg_insert_ne.
Qed.

Lemma bind_Ok_inv {A B} (c : M A) (k : A → M B) st b st'' :
  (c ≫= k) st = Ok b st'' → ∃ a st', c st = Ok a st' ∧ k a st' = Ok b st''.
Proof.
  unfold mbind, M_bind, bind. destruct (c st) as [a st'| |]; [eauto|done|done].
Qed.

Lemma fuel_mono_const {A} (c : M A) : fuel_mono (λ _, c).
Proof. by intros f f' st a st' _ H. Qed.

Lemma fuel_mono_bind {A B} (c : nat → M A) (k : nat → A → M B) :
  fuel_mono c → (∀ a, fuel_mono (λ f, k f a)) →
  fuel_mono (λ f, c f ≫= k f).
Proof.
  intros Hc Hk f f' st b st'' Hle Hrun.
  apply bind_Ok_inv in Hrun as (a & st' & Hrun1 & Hrun2).
  rewrite (bind_Ok _ _ _ _ _ (Hc _ _ _ _ _ Hle Hrun1)).
  by apply (Hk a f f').
Qed.

Lemma fuel_mono_if {A} (b : bool) (c1 c2 : nat → M A) :
  fuel_mono c1 → fuel_mono c2 → fuel_mono (λ f, if b then c1 f else c2 f).
Proof. by destruct b. Qed.

Lemma walk_loop_mono index prev cur idx :
  fuel_mono (λ f, walk_loop f index prev cur idx).
Proof.
  intros f. revert prev cur idx.
  induction f as [|f IH]; intros prev cur idx f' st a st' Hle Hrun; [done|].
  destruct f' as [|f']; [lia|]. cbn [walk_loop] in *.
  destruct (negb (is_null cur) && (idx <? index)); [|done].
  apply bind_Ok_inv in Hrun as (nxt & st1 & Hrun1 & Hrun2).
  rewrite (bind_Ok _ _ _ _ _ Hrun1). eapply IH; [|done]. lia.
Qed.

Lemma last_loop_mono cur : fuel_mono (λ f, last_loop f cur).
Proof.
  intros f. revert cur.
  induction f as [|f IH]; intros cur f' st a st' Hle Hrun; [done|].
  destruct f' as [|f']; [lia|]. cbn [last_loop] in *.
  apply bind_Ok_inv in Hrun as (nxt & st1 & Hrun1 & Hrun2).
  rewrite (bind_Ok _ _ _ _ _ Hrun1).
  destruct (is_null nxt); [done|]. eapply IH; [|done]. lia.
Qed.

Ltac fuel_mono_tac :=
  repeat first
    [ apply fuel_mono_const
    | apply walk_loop_mono
    | apply last_loop_mono
    | apply fuel_mono_if
    | apply fuel_mono_bind; [|intros ?]
    | match goal with |- fuel_mono (λ f, let '(_, _) := ?x in _) => destruct x end ].

Lemma insert_end_mono ll data : fuel_mono (λ f, linked_list_insert_end f ll data).
Proof. unfold linked_list_insert_end. fuel_mono_tac. Qed.

Lemma insert_mono ll index data :
  fuel_mono (λ f, linked_list_insert f ll index data).
Proof.
  unfold linked_list_insert. fuel_mono_tac.
Qed.

Lemma remove_mono ll index : fuel_mono (λ f, linked_list_remove f ll index).
Proof. unfold linked_list_remove. fuel_mono_tac. Qed.

Lemma run_op_mono ll o : fuel_mono (λ f, run_op f ll o).
Proof.
  destruct o; cbn [run_op];
    [apply fuel_mono_const | apply insert_end_mono | apply insert_mono | apply remove_mono].
Qed.

(** What [linked_list_insert] does on a well-formed list, in every case. *)
Lemma insert_spec st fuel ll cells index v :
  is_list st ll cells → alloc_ok st → 0 ≤ index →
  (length cells < fuel)%nat →
  (Z.of_nat (length cells) < index →
     linked_list_insert fuel ll index v st = Ok false st) ∧
  (index ≤ Z.of_nat (length cells) → alloc_fails st →
     linked_list_insert fuel ll index v st = Ok false (pop_alloc st)) ∧
  (index ≤ Z.of_nat (length cells) →
     ∀ p rest, allocs st = p :: rest → p ≠ NULL →
     ∃ st', linked_list_insert fuel ll index v st = Ok true st' ∧
            is_list st' ll (take (Z.to_nat index) cells ++ (p, v) ::
                            drop (Z.to_nat index) cells) ∧
            iters st' = iters st ∧ allocs st' = rest).
Proof.
  intros Hlist Hok Hidx Hfuel.
  pose proof Hlist as (Hll & hd & Hhdr & Hseg).
  split; [|split].
  - intros Hgt. eapply insert_out_of_range; [done|done|]. cbn [ll_size]. lia.
  - intros Hle Hf.
    destruct (decide (index = 0)) as [-> | Hnz].
    { rewrite (insert_zero _ _ _ _ _ Hll Hhdr) by (cbn [ll_size]; lia).
      by apply insert_front_fail. }
    destruct (decide (index = Z.of_nat (length cells))) as [-> | Hne].
    { rewrite (insert_at_size _ _ _ _ _ Hll Hhdr) by (cbn [ll_size]; lia).
      by eapply insert_end_fail. }
    eapply insert_mid_fail; [done|done|lia|done].
  - intros Hle p rest Hal Hp.
    destruct (decide (index = 0)) as [-> | Hnz].
    { rewrite (insert_zero _ _ _ _ _ Hll Hhdr) by (cbn [ll_size]; lia).
      change (Z.to_nat 0) with 0%nat. cbn [take app]. rewrite drop_0.
      by apply insert_front_is_list. }
    destruct (decide (index = Z.of_nat (length cells))) as [-> | Hne].
    { rewrite (insert_at_size _ _ _ _ _ Hll Hhdr) by (cbn [ll_size]; lia).
      rewrite Nat2Z.id, firstn_all, drop_all.
      by apply insert_end_is_list. }
    eapply insert_mid_is_list; try done. lia.
Qed.

(** What [linked_list_remove] does on a well-formed list, in every case. *)
Lemma remove_spec st fuel ll cells index :
  is_list st ll cells → 0 ≤ index →
  (length cells < fuel)%nat →
  (Z.of_nat (length cells) < index →
     linked_list_remove fuel ll index st = Ok false st) ∧
  (index = Z.of_nat (length cells) → cells ≠ [] →
     linked_list_remove fuel ll index st = Ok false st) ∧
  (index = 0 → cells = [] → linked_list_remove fuel ll index st = Crash) ∧
  (index < Z.of_nat (length cells) →
     ∃ st', linked_list_remove fuel ll index st = Ok true st' ∧
            is_list st' ll (take (Z.to_nat index) cells ++
                            drop (S (Z.to_nat index)) cells) ∧
            iters st' = iters st ∧ allocs st' = allocs st).
Proof.
  intros Hlist Hidx Hfuel.
  pose proof Hlist as (Hll & hd & Hhdr & Hseg).
  split; [|split; [|split]].
  - intros Hgt. eapply remove_out_of_range; [done|done|]. cbn [ll_size]. lia.
  - intros -> Hne. eapply remove_past_end; try done.
    destruct cells; [done|]. cbn [length]. lia.
  - intros -> ->. simpl in Hseg. subst hd.
    by eapply remove_zero_empty_Crash.
  - intros Hlt. by apply remove_is_list.
Qed.

Lemma malloc_list_Ok st p rest :
  allocs st = p :: rest → p ≠ NULL →
  malloc_list st =
    Ok p (State (nodes st) (<[p := LinkedList NULL 0]> (lists st)) (iters st) rest).
Proof.
  unfold malloc_list, malloc_fptr, mbind, M_bind, bind.
  intros -> Hp. apply is_null_false in Hp. by rewrite Hp.
Qed.

Lemma create_Ok st p rest :
  allocs st = p :: rest → p ≠ NULL →
  linked_list_create st =
    Ok p (State (nodes st) (<[p := LinkedList NULL 0]> (lists st)) (iters st) rest).
Proof.
  intros Hal Hp. unfold linked_list_create.
  rewrite (bind_Ok _ _ _ _ _ (malloc_list_Ok _ _ _ Hal Hp)).
  apply is_null_false in Hp. rewrite Hp.
  mstep_with set_head_Ok; [|done|apply lookup_insert_eq]. msimpl.
  mstep_with set_size_Ok; [|done|apply lookup_insert_eq]. msimpl.
  rewrite mret_Ok. unfold with_lists. msimpl.
  by rewrite !insert_insert_eq.
Qed.

Lemma create_fail st :
  alloc_fails st → linked_list_create st = Ok NULL (pop_alloc st).
Proof.
  intros Hf. unfold linked_list_create, malloc_list.
  erewrite bind_Ok; [|by erewrite bind_Ok; [|by apply malloc_fptr_fail]].
  done.
Qed.

(** A list that [linked_list_create] returned is a well-formed empty list. *)
Lemma create_is_list st ll st' :
  linked_list_create st = Ok ll st' → ll ≠ NULL → is_list st' ll [].
Proof.
  intros Hrun Hll.
  destruct (alloc_cases st) as [Hf | (p & rest & Hal & Hp)].
  - rewrite (create_fail _ Hf) in Hrun. congruence.
  - rewrite (create_Ok _ _ _ Hal Hp) in Hrun. injection Hrun as <- <-.
    split; [done|]. exists NULL. split; [|done]. apply lookup_insert_eq.
Qed.

Lemma run_op_is_list st st' fuel ll o cells :
  is_list st ll cells → (is_insert o = true → alloc_ok st) → op_args_ok o →
  run_op fuel ll o st = Ok true st' →
  ∃ cells', is_list st' ll cells' ∧
    if is_insert o then length cells' = S (length cells)
    else S (length cells') = length cells.
Proof.
  intros Hlist Hok Hargs Hrun.
  set (F := (fuel `max` S (length cells))%nat).
  assert (run_op F ll o st = Ok true st') as HrunF.
  { apply (run_op_mono ll o fuel F); [lia | done]. }
  clear Hrun. assert (length cells < F)%nat as HF by lia. clearbody F.
  pose proof Hlist as (Hll & hd & Hhdr & Hseg).
  destruct o as [v | v | index v | index]; cbn [run_op is_insert op_args_ok] in *;
    try specialize (Hok eq_refl).
  - destruct (alloc_cases st) as [Hf | (p & rest & Hal & Hp)].
    + rewrite (insert_front_fail _ _ _ Hll Hf) in HrunF. congruence.
    + destruct (insert_front_is_list _ _ _ v _ _ Hlist Hok Hal Hp)
        as (st'' & Hex & Hl' & _).
      rewrite Hex in HrunF. injection HrunF as <-. eauto.
  - destruct (alloc_cases st) as [Hf | (p & rest & Hal & Hp)].
    + rewrite (insert_end_fail _ _ _ _ _ Hll Hhdr Hf) in HrunF. congruence.
    + destruct (insert_end_is_list _ F _ _ v _ _ Hlist Hok Hal Hp HF)
        as (st'' & Hex & Hl' & _).
      rewrite Hex in HrunF. injection HrunF as <-.
      eexists. split; [done|]. rewrite length_app. cbn [length]. lia.
  - destruct (insert_spec st F ll cells index v Hlist Hok) as (Hgt & Hfail & Hsucc);
      [lia|done|].
    destruct (decide (Z.of_nat (length cells) < index)) as [Hlt | Hge].
    { rewrite (Hgt Hlt) in HrunF. congruence. }
    destruct (alloc_cases st) as [Hf | (p & rest & Hal & Hp)].
    + rewrite Hfail in HrunF by (done || lia). congruence.
    + destruct (Hsucc ltac:(lia) p rest Hal Hp) as (st'' & Hex & Hl' & _).
      rewrite Hex in HrunF. injection HrunF as <-.
      eexists. split; [done|].
      rewrite length_app. cbn [length]. rewrite length_take, length_drop. lia.
  - destruct (remove_spec st F ll cells index Hlist) as (Hgt & Hend & Hcrash & Hsucc);
      [lia|done|].
    destruct (decide (Z.of_nat (length cells) < index)) as [Hlt | Hge].
    { rewrite (Hgt Hlt) in HrunF. congruence. }
    destruct (decide (index = Z.of_nat (length cells))) as [Heq | Hne].
    { destruct cells as [|c cells].
      - rewrite Hcrash in HrunF by done. congruence.
      - rewrite Hend in HrunF by done. congruence. }
    destruct (Hsucc ltac:(lia)) as (st'' & Hex & Hl' & _).
    rewrite Hex in HrunF. injection HrunF as <-.
    eexists. split; [done|].
    rewrite length_app, length_take, length_drop. lia.
Qed.

(** The invariant of a list along a run of successful operations. *)
Lemma run_ok_is_list ll ops st st' cells :
  is_list st ll cells → run_ok ll ops st st' →
  ∃ cells', is_list st' ll cells'.
Proof.
  intros Hlist Hrun. revert cells Hlist.
  induction Hrun as [st | fuel o ops st st1 st2 Hok Hargs Hop Hrun IH];
    intros cells Hlist; [eauto|].
  destruct (run_op_is_list _ _ _ _ _ _ Hlist Hok Hargs Hop) as (cells' & Hl' & _).
  eauto.
Qed.

Lemma run_ok_inserts_length ll ops st st' cells :
  is_list st ll cells → run_ok ll ops st st' →
  Forall (λ o, is_insert o = true) ops →
  ∃ cells', is_list st' ll cells' ∧
            length cells' = (length cells + length ops)%nat.
Proof.
  intros Hlist Hrun. revert cells Hlist.
  induction Hrun as [st | fuel o ops st st1 st2 Hok Hargs Hop Hrun IH];
    intros cells Hlist Hins.
  - exists cells. split; [done|]. cbn [length]. lia.
  - apply Forall_cons in Hins as [Ho Hins].
    destruct (run_op_is_list _ _ _ _ _ _ Hlist Hok Hargs Hop) as (cells' & Hl' & Hlen).
    rewrite Ho in Hlen.
    destruct (IH _ Hl' Hins) as (cells'' & Hl'' & Hlen'').
    exists cells''. split; [done|]. cbn [length]. lia.
Qed.

Lemma remove_front_n_spec st fuel ll cells :
  is_list st ll cells →
  ∃ st', remove_front_n fuel ll (length cells) st = Ok true st' ∧
         is_list st' ll [].
Proof.
  revert st. induction cells as [|[l d] cells IH]; intros st Hlist; cbn [length remove_front_n].
  - eauto.
  - pose proof Hlist as (Hll & hd & Hhdr & Hseg).
    pose proof (lseg_length_bound _ _ _ Hseg) as Hbound.
    destruct (lseg_split_at _ _ [] _ _ _ Hseg) as (n & Hhd & Hvl & Hl & H2 & _ & Hl2).
    simpl in Hhd. subst hd.
    erewrite bind_Ok; [|eapply remove_zero_Ok; try done; lia].
    apply IH.
    eapply is_list_intro; [done| |msimpl; apply lookup_insert_eq|cbn [length]; lia].
    msimpl. by apply lseg_delete_ne.
Qed.

Lemma load_iter_Ok p i st :
  is_null p = false → iters st !! p = Some i → load_iter p st = Ok i st.
Proof. unfold load_iter. by intros -> ->. Qed.

Lemma store_iter_Ok p i i' st :
  is_null p = false → iters st !! p = Some i →
  store_iter p i' st = Ok () (with_iters <[p := i']> st).
Proof. unfold store_iter. by intros -> ->. Qed.

Lemma get_current_node_Ok p i st :
  is_null p = false → iters st !! p = Some i →
  get_current_node p st = Ok (it_current_node i) st.
Proof.
  intros Hp Hi. unfold get_current_node.
  by rewrite (bind_Ok _ _ _ _ _ (load_iter_Ok _ _ _ Hp Hi)).
Qed.

Lemma get_current_index_Ok p i st :
  is_null p = false → iters st !! p = Some i →
  get_current_index p st = Ok (it_current_index i) st.
Proof.
  intros Hp Hi. unfold get_current_index.
  by rewrite (bind_Ok _ _ _ _ _ (load_iter_Ok _ _ _ Hp Hi)).
Qed.

Lemma set_ll_Ok p i v st :
  is_null p = false → iters st !! p = Some i →
  set_ll p v st =
    Ok () (with_iters
             <[p := Iterator v (it_current_index i) (it_current_node i) (it_data i)]> st).
Proof.
  intros Hp Hi. unfold set_ll.
  rewrite (bind_Ok _ _ _ _ _ (load_iter_Ok _ _ _ Hp Hi)).
  by apply store_iter_Ok with i.
Qed.

Lemma set_current_index_Ok p i v st :
  is_null p = false → iters st !! p = Some i →
  set_current_index p v st =
    Ok () (with_iters
             <[p := Iterator (it_ll i) v (it_current_node i) (it_data i)]> st).
Proof.
  intros Hp Hi. unfold set_current_index.
  rewrite (bind_Ok _ _ _ _ _ (load_iter_Ok _ _ _ Hp Hi)).
  by apply store_iter_Ok with i.
Qed.

Lemma set_current_node_Ok p i v st :
  is_null p = false → iters st !! p = Some i →
  set_current_node p v st =
    Ok () (with_iters
             <[p := Iterator (it_ll i) (it_current_index i) v (it_data i)]> st).
Proof.
  intros Hp Hi. unfold set_current_node.
  rewrite (bind_Ok _ _ _ _ _ (load_iter_Ok _ _ _ Hp Hi)).
  by apply store_iter_Ok with i.
Qed.

Lemma set_it_data_Ok p i v st :
  is_null p = false → iters st !! p = Some i →
  set_it_data p v st =
    Ok () (with_iters
             <[p := Iterator (it_ll i) (it_current_index i) (it_current_node i) v]> st).
Proof.
  intros Hp Hi. unfold set_it_data.
  rewrite (bind_Ok _ _ _ _ _ (load_iter_Ok _ _ _ Hp Hi)).
  by apply store_iter_Ok with i.
Qed.

Lemma malloc_iterator_fail st :
  alloc_fails st → malloc_iterator st = Ok NULL (pop_alloc st).
Proof.
  intros Hf. unfold malloc_iterator.
  by rewrite (bind_Ok _ _ _ _ _ (malloc_fptr_fail _ Hf)).
Qed.

Lemma malloc_iterator_Ok st p rest :
  allocs st = p :: rest → p ≠ NULL →
  malloc_iterator st =
    Ok p (State (nodes st) (lists st) (<[p := Iterator NULL 0 NULL 0]> (iters st)) rest).
Proof.
  unfold malloc_iterator, malloc_fptr, mbind, M_bind, bind.
  intros -> Hp. apply is_null_false in Hp. by rewrite Hp.
Qed.

(** *** [linked_list_iterate] *)

Lemma iterate_NULL st : linked_list_iterate NULL st = Ok false st.
Proof. done. Qed.

Lemma iterate_past_end st it ll idx d :
  it ≠ NULL → iters st !! it = Some (Iterator ll idx NULL d) →
  linked_list_iterate it st = Ok false st.
Proof.
  intros Hit Hi. unfold linked_list_iterate.
  apply is_null_false in Hit. rewrite Hit.
  by mstep_with get_current_node_Ok; [|done|done].
Qed.

Lemma iterate_at_last st it ll idx cur d dc :
  it ≠ NULL → iters st !! it = Some (Iterator ll idx cur d) →
  valid_ptr cur → nodes st !! cur = Some (Node dc NULL) →
  linked_list_iterate it st =
    Ok false (State (nodes st) (lists st)
                    (<[it := Iterator ll idx NULL d]> (iters st)) (allocs st)).
Proof.
  intros Hit Hi Hv Hcur. unfold linked_list_iterate.
  apply is_null_false in Hit. rewrite Hit.
  mstep_with get_current_node_Ok; [|done|done]. msimpl.
  rewrite (valid_ptr_not_null _ Hv).
  mstep_with get_next_Ok; [|by apply valid_ptr_not_null|done]. msimpl.
  mstep_with set_current_node_Ok; [|done|done]. msimpl.
  mstep_with get_current_node_Ok; [|done|apply lookup_insert_eq]. msimpl.
  done.
Qed.

Lemma iterate_advance st it ll idx cur d dc n dn n' :
  it ≠ NULL → iters st !! it = Some (Iterator ll idx cur d) →
  valid_ptr cur → nodes st !! cur = Some (Node dc n) →
  valid_ptr n → nodes st !! n = Some (Node dn n') →
  linked_list_iterate it st =
    Ok true (State (nodes st) (lists st)
                   (<[it := Iterator ll (wrap (idx + 1)) n dn]> (iters st))
                   (allocs st)).
Proof.
  intros Hit Hi Hv Hcur Hvn Hn. unfold linked_list_iterate.
  apply is_null_false in Hit. rewrite Hit.
  mstep_with get_current_node_Ok; [|done|done]. msimpl.
  rewrite (valid_ptr_not_null _ Hv).
  mstep_with get_next_Ok; [|by apply valid_ptr_not_null|done]. msimpl.
  mstep_with set_current_node_Ok; [|done|done]. msimpl.
  mstep_with get_current_node_Ok; [|done|apply lookup_insert_eq]. msimpl.
  rewrite (valid_ptr_not_null _ Hvn).
  mstep_with get_current_index_Ok; [|done|apply lookup_insert_eq]. msimpl.
  mstep_with set_current_index_Ok; [|done|apply lookup_insert_eq]. msimpl.
  mstep_with get_current_node_Ok; [|done|apply lookup_insert_eq]. msimpl.
  mstep_with get_data_Ok; [|by apply valid_ptr_not_null|done]. msimpl.
  mstep_with set_it_data_Ok; [|done|apply lookup_insert_eq]. msimpl.
  rewrite mret_Ok. unfold with_iters. msimpl.
  by rewrite !insert_insert_eq.
Qed.

Lemma lseg_lookup h hd cells (k : nat) l d :
  lseg h hd cells NULL → cells !! k = Some (l, d) →
  valid_ptr l ∧
  ∃ n, h !! l = Some (Node d n) ∧ lseg h hd (take k cells) l ∧
       lseg h n (drop (S k) cells) NULL.
Proof.
  intros Hseg Hk. rewrite <- (take_drop_middle _ _ _ Hk) in Hseg.
  destruct (lseg_split_at _ _ _ _ _ _ Hseg) as (n & H1 & Hv & Hl & H2 & _).
  eauto 6.
Qed.

(** The [next] field of the cell at position [k]: the address of the cell
    at position [k + 1], or [NULL] for the last cell. *)
Lemma lseg_lookup_next h hd cells (k : nat) l d :
  lseg h hd cells NULL → cells !! k = Some (l, d) →
  match cells !! S k with
  | Some (l', d') =>
      h !! l = Some (Node d l') ∧ valid_ptr l' ∧
      ∃ n', h !! l' = Some (Node d' n')
  | None => h !! l = Some (Node d NULL)
  end.
Proof.
  intros Hseg Hk.
  destruct (lseg_lookup _ _ _ _ _ _ Hseg Hk) as (Hv & n & Hl & _ & H2).
  destruct (cells !! S k) as [[l' d']|] eqn:HSk.
  - rewrite (drop_S _ _ _ HSk) in H2. cbn [lseg fst snd] in H2.
    destruct H2 as (-> & Hv' & n' & Hn' & _). eauto.
  - apply lookup_ge_None in HSk. rewrite drop_ge in H2 by done.
    simpl in H2. by subst n.
Qed.

Lemma create_iterator_NULL st fuel index :
  linked_list_create_iterator fuel NULL index st = Ok NULL st.
Proof. done. Qed.

Lemma create_iterator_out_of_range st fuel ll cells index :
  is_list st ll cells → Z.of_nat (length cells) ≤ index →
  (length cells < fuel)%nat →
  linked_list_create_iterator fuel ll index st = Ok NULL st.
Proof.
  intros (Hll & hd & Hhdr & Hseg) Hidx Hfuel.
  pose proof (lseg_length_bound _ _ _ Hseg) as Hbound.
  unfold linked_list_create_iterator.
  apply is_null_false in Hll. rewrite Hll.
  mstep_with get_size_Ok; [|done|done]. msimpl.
  destruct (index >? Z.of_nat (length cells)) eqn:Hgt; [done|].
  rewrite Z.gtb_ltb in Hgt. apply Z.ltb_ge in Hgt.
  mstep_with get_head_Ok; [|done|done]. msimpl.
  erewrite bind_Ok; cycle 1.
  { eapply (walk_loop_Ok _ cells _ _ _ _ _ NULL); try done; try lia. }
  done.
Qed.

Lemma create_iterator_walk st fuel ll cells index l d :
  is_list st ll cells → 0 ≤ index →
  cells !! Z.to_nat index = Some (l, d) →
  (length cells < fuel)%nat →
  valid_ptr l ∧ (∃ n, nodes st !! l = Some (Node d n)) ∧
  linked_list_create_iterator fuel ll index st =
    (it ← malloc_iterator;
     if is_null it then mret NULL else
     set_ll it ll;;
     set_current_index it index;;
     set_current_node it l;;
     d ← get_data l;
     set_it_data it d;;
     mret it) st.
Proof.
  intros (Hll & hd & Hhdr & Hseg) Hidx Hk Hfuel.
  pose proof (lseg_length_bound _ _ _ Hseg) as Hbound.
  pose proof (lookup_lt_Some _ _ _ Hk) as Hlt.
  destruct (lseg_lookup _ _ _ _ _ _ Hseg Hk) as (Hv & n & Hl & H1 & _).
  split; [done|]. split; [eauto|].
  unfold linked_list_create_iterator.
  apply is_null_false in Hll. rewrite Hll.
  mstep_with get_size_Ok; [|done|done]. msimpl.
  assert ((index >? Z.of_nat (length cells)) = false) as ->
    by (rewrite Z.gtb_ltb; apply Z.ltb_ge; lia).
  mstep_with get_head_Ok; [|done|done]. msimpl.
  assert (length (take (Z.to_nat index) cells) = Z.to_nat index) as Hlen
    by (rewrite length_take; lia).
  erewrite bind_Ok; cycle 1.
  { eapply (walk_loop_Ok _ _ _ _ _ _ _ l H1); try lia. }
  cbv beta iota. rewrite (valid_ptr_not_null _ Hv).
  rewrite Hlen, Z.add_0_l, Z2Nat.id by done. done.
Qed.

Lemma create_iterator_fail st fuel ll cells index :
  is_list st ll cells → 0 ≤ index < Z.of_nat (length cells) →
  alloc_fails st →
  (length cells < fuel)%nat →
  linked_list_create_iterator fuel ll index st = Ok NULL (pop_alloc st).
Proof.
  intros Hlist Hidx Hf Hfuel.
  assert (is_Some (cells !! Z.to_nat index)) as [[l d] Hk]
    by (apply lookup_lt_is_Some_2; lia).
  destruct (create_iterator_walk _ _ _ _ _ _ _ Hlist (proj1 Hidx) Hk Hfuel)
    as (_ & _ & ->).
  by rewrite (bind_Ok _ _ _ _ _ (malloc_iterator_fail _ Hf)).
Qed.

Lemma create_iterator_Ok st fuel ll cells index l d p rest :
  is_list st ll cells → 0 ≤ index →
  cells !! Z.to_nat index = Some (l, d) →
  allocs st = p :: rest → p ≠ NULL →
  (length cells < fuel)%nat →
  linked_list_create_iterator fuel ll index st =
    Ok p (State (nodes st) (lists st)
                (<[p := Iterator ll index l d]> (iters st)) rest).
Proof.
  intros Hlist Hidx Hk Hal Hp Hfuel.
  destruct (create_iterator_walk _ _ _ _ _ _ _ Hlist Hidx Hk Hfuel)
    as (Hv & (n & Hl) & ->).
  rewrite (bind_Ok _ _ _ _ _ (malloc_iterator_Ok _ _ _ Hal Hp)).
  apply is_null_false in Hp. rewrite Hp.
  mstep_with set_ll_Ok; [|done|apply lookup_insert_eq]. msimpl.
  mstep_with set_current_index_Ok; [|done|apply lookup_insert_eq]. msimpl.
  mstep_with set_current_node_Ok; [|done|apply lookup_insert_eq]. msimpl.
  mstep_with get_data_Ok; [|by apply valid_ptr_not_null|done]. msimpl.
  mstep_with set_it_data_Ok; [|done|apply lookup_insert_eq]. msimpl.
  rewrite mret_Ok. unfold with_iters. msimpl.
  by rewrite !insert_insert_eq.
Qed.

(** *** [linked_list_find] and the node count *)

Lemma find_NULL st fuel v : linked_list_find fuel NULL v st = Ok SIZE_MAX st.
Proof. done. Qed.

Lemma find_found st fuel ll c1 c c2 v :
  is_list st ll (c1 ++ c :: c2) → c.2 = v → v ∉ c1.*2 →
  (length c1 < fuel)%nat →
  linked_list_find fuel ll v st = Ok (Z.of_nat (length c1)) st.
Proof.
  intros (Hll & hd & Hhdr & Hseg) Hc Hnin Hfuel.
  pose proof (lseg_length_bound _ _ _ Hseg) as Hbound.
  rewrite length_app in Hbound. cbn [length] in Hbound.
  unfold linked_list_find.
  apply is_null_false in Hll. rewrite Hll.
  mstep_with get_head_Ok; [|done|done]. msimpl.
  rewrite (find_loop_found _ _ _ _ _ _ _ _ Hseg Hc Hnin); [done|lia|lia|done].
Qed.

Lemma find_miss st fuel ll cells v :
  is_list st ll cells → v ∉ cells.*2 →
  (length cells < fuel)%nat →
  linked_list_find fuel ll v st = Ok SIZE_MAX st.
Proof.
  intros (Hll & hd & Hhdr & Hseg) Hnin Hfuel.
  pose proof (lseg_length_bound _ _ _ Hseg) as Hbound.
  unfold linked_list_find.
  apply is_null_false in Hll. rewrite Hll.
  mstep_with get_head_Ok; [|done|done]. msimpl.
  apply (find_loop_miss _ _ _ _ _ _ Hseg Hnin); [lia|lia|done].
Qed.

(** The first occurrence of a value that occurs in a chain. *)
Lemma contents_first_occurrence cells v :
  v ∈ contents cells →
  ∃ c1 c c2, cells = c1 ++ c :: c2 ∧ c.2 = v ∧ v ∉ c1.*2.
Proof.
  unfold contents. intros Hin.
  apply list_elem_of_split_l in Hin as (x1 & x2 & Heq & Hnin).
  apply fmap_app_inv in Heq as (c1 & c2' & -> & Heq & ->).
  symmetry in Heq. apply fmap_cons_inv in Heq as (c & c2 & -> & -> & ->).
  eauto 6.
Qed.

Lemma count_nodes_Ok st fuel ll cells :
  is_list st ll cells → (length cells < fuel)%nat →
  count_nodes fuel ll st = Ok (Z.of_nat (length cells)) st.
Proof.
  intros (Hll & hd & Hhdr & Hseg) Hfuel.
  pose proof (lseg_length_bound _ _ _ Hseg) as Hbound.
  unfold count_nodes. apply is_null_false in Hll.
  mstep_with get_head_Ok; [|done|done]. msimpl.
  rewrite (count_loop_Ok _ _ _ _ _ Hseg); [done|lia|lia|done].
Qed.

(** ** The example states *)

Lemma st_two_is_list : is_list st_two 100 cells_two.
Proof.
  split; [done|]. exists 8. split; [by vm_compute|].
  unfold cells_two. cbn [lseg fst snd].
  split; [done|]. split; [by vm_compute|]. exists 16. split; [by vm_compute|].
  split; [done|]. split; [by vm_compute|]. exists NULL. split; [by vm_compute|].
  done.
Qed.

Lemma st_two_oom_is_list : is_list st_two_oom 100 cells_two.
Proof. exact st_two_is_list. Qed.

Lemma alloc_ok_intro st :
  match allocs st with
  | [] => True
  | p :: _ =>
      p = NULL ∨
      (valid_ptr p ∧ nodes st !! p = None ∧ lists st !! p = None ∧
       iters st !! p = None)
  end → alloc_ok st.
Proof.
  intros H p rest Hal Hp. rewrite Hal in H. by destruct H.
Qed.

Lemma alloc_fails_ok st : alloc_fails st → alloc_ok st.
Proof.
  unfold alloc_fails. intros H. apply alloc_ok_intro.
  destruct (allocs st); [done | by left].
Qed.

Lemma st_two_alloc_ok : alloc_ok st_two.
Proof. apply alloc_ok_intro. right. by vm_compute. Qed.

Lemma st_fresh_alloc_ok : alloc_ok st_fresh.
Proof. apply alloc_ok_intro. right. by vm_compute. Qed.

(** On a non-empty well-formed list [linked_list_remove] is safe at every
    index: it returns [true] exactly for an index below the size, and a
    [false] return leaves the state as it was. *)
Lemma remove_nonempty_safe st fuel ll cells index :
  is_list st ll cells → cells ≠ [] → 0 ≤ index →
  (length cells < fuel)%nat →
  ∃ b st', linked_list_remove fuel ll index st = Ok b st' ∧
    (b = true ↔ index < Z.of_nat (length cells)) ∧
    (b = false → st' = st) ∧
    (b = true →
       is_list st' ll (take (Z.to_nat index) cells ++
                       drop (S (Z.to_nat index)) cells)).
Proof.
  intros Hlist Hne Hidx Hfuel.
  destruct (remove_spec st fuel ll cells index Hlist Hidx Hfuel)
    as (Hgt & Hend & _ & Hsucc).
  destruct (decide (index < Z.of_nat (length cells))) as [Hlt | Hge].
  - destruct (Hsucc Hlt) as (st' & Hex & Hl' & _).
    exists true, st'. split; [done|]. split; [done|]. split; [done|done].
  - exists false, st. split.
    + destruct (decide (index = Z.of_nat (length cells))) as [Heq | Hneq];
        [by apply Hend | apply Hgt; lia].
    + split; [split; [done | intros; lia]|]. split; [done|done].
Qed.

(** * The claims *)

(** C1 (fails on the code).  The claim says that [linked_list_remove]
    never crashes, on any list including the empty one.  On a freshly
    created list, [linked_list_remove(ll, 0)] passes the bound check
    ([0 > size] is false), takes the [index == 0] branch and reads
    [cur->next] with [cur == NULL]: the run ends in [Crash] instead of
    returning [false]. *)
Theorem C1_remove_on_empty_list_crashes :
  (ll ← linked_list_create; linked_list_remove 1 ll 0) st_fresh = Crash.
Proof. by vm_compute. Qed.

(** C10.  On a non-empty well-formed list, [linked_list_remove] at index
    [linked_list_size(ll)] returns [false] and leaves the whole state as
    it was. *)
Theorem C10_remove_at_size_is_noop st fuel ll cells :
  is_list st ll cells → cells ≠ [] → (length cells < fuel)%nat →
  ∃ sz, linked_list_size ll st = Ok sz st ∧
        linked_list_remove fuel ll sz st = Ok false st.
Proof.
  intros Hlist Hne Hfuel. exists (Z.of_nat (length cells)).
  split; [by apply is_list_size|].
  destruct (remove_spec st fuel ll cells (Z.of_nat (length cells)) Hlist)
    as (_ & Hend & _); [lia|done|].
  by apply Hend.
Qed.

Lemma C10_witness :
  ∃ sz, linked_list_size 100 st_two = Ok sz st_two ∧
        linked_list_remove 3 100 sz st_two = Ok false st_two.
Proof.
  apply (C10_remove_at_size_is_noop st_two 3 100 cells_two).
  - exact st_two_is_list.
  - discriminate.
  - simpl. lia.
Defined.

(** C8.  If the allocation fails, each of the three insert functions
    returns [false] and nodes, list headers and iterators are exactly as
    before the call. *)
Theorem C8_allocation_failure_no_mutation st fuel ll cells index v :
  is_list st ll cells → alloc_fails st →
  0 ≤ index ≤ Z.of_nat (length cells) → (length cells < fuel)%nat →
  ∃ st', linked_list_insert_front ll v st = Ok false st' ∧
         linked_list_insert_end fuel ll v st = Ok false st' ∧
         linked_list_insert fuel ll index v st = Ok false st' ∧
         nodes st' = nodes st ∧ lists st' = lists st ∧ iters st' = iters st ∧
         is_list st' ll cells.
Proof.
  intros Hlist Hf Hidx Hfuel. pose proof Hlist as (Hll & hd & Hhdr & Hseg).
  exists (pop_alloc st). split; [by apply insert_front_fail|].
  split; [by eapply insert_end_fail|].
  split; [|done].
  destruct (insert_spec st fuel ll cells index v Hlist) as (_ & Hfail & _);
    [by apply alloc_fails_ok | lia | done |].
  apply Hfail; [lia | done].
Qed.

Lemma C8_witness :
  ∃ st', linked_list_insert_front 100 5 st_two_oom = Ok false st' ∧
         linked_list_insert_end 3 100 5 st_two_oom = Ok false st' ∧
         linked_list_insert 3 100 1 5 st_two_oom = Ok false st' ∧
         nodes st' = nodes st_two_oom ∧ lists st' = lists st_two_oom ∧
         iters st' = iters st_two_oom ∧
         is_list st' 100 cells_two.
Proof.
  apply (C8_allocation_failure_no_mutation st_two_oom 3 100 cells_two 1 5).
  - exact st_two_oom_is_list.
  - exact I.
  - simpl. lia.
  - simpl. lia.
Defined.

(** C4.  On an absent or well-formed list, [linked_list_insert] at index 0
    is [linked_list_insert_front], and [linked_list_insert] at index
    [linked_list_size(ll)] is [linked_list_insert_end]: same return value
    and same final state. *)
Theorem C4_insert_at_ends st fuel ll cells v :
  ll = NULL ∨ is_list st ll cells →
  linked_list_insert fuel ll 0 v st = linked_list_insert_front ll v st ∧
  ∃ sz, linked_list_size ll st = Ok sz st ∧
        linked_list_insert fuel ll sz v st = linked_list_insert_end fuel ll v st.
Proof.
  intros [-> | Hlist].
  - split; [done|]. by exists SIZE_MAX.
  - pose proof Hlist as (Hll & hd & Hhdr & Hseg).
    split; [apply (insert_zero _ _ _ _ _ Hll Hhdr); cbn [ll_size]; lia|].
    exists (Z.of_nat (length cells)). split; [by apply is_list_size|].
    destruct cells as [|c cells].
    + simpl in Hseg. subst hd. cbn [length Z.of_nat] in *.
      rewrite (insert_zero _ _ _ _ _ Hll Hhdr) by done.
      destruct (alloc_cases st) as [Hf | (p & rest & Hal & Hp)].
      * rewrite (insert_front_fail _ _ _ Hll Hf).
        by rewrite (insert_end_fail _ _ _ _ _ Hll Hhdr Hf).
      * rewrite (insert_front_Ok _ _ _ _ _ _ _ Hll Hhdr Hal Hp).
        by rewrite (insert_end_Ok_nil _ _ _ _ _ _ _ Hll Hhdr Hal Hp).
    + apply (insert_at_size _ _ _ _ _ Hll Hhdr). cbn [ll_size length]. lia.
Qed.

Lemma C4_witness :
  linked_list_insert 3 100 0 5 st_two = linked_list_insert_front 100 5 st_two ∧
  ∃ sz, linked_list_size 100 st_two = Ok sz st_two ∧
        linked_list_insert 3 100 sz 5 st_two = linked_list_insert_end 3 100 5 st_two.
Proof.
  apply (C4_insert_at_ends st_two 3 100 cells_two 5).
  right. exact st_two_is_list.
Defined.

Lemma contents_insert cells (i : nat) p v :
  contents (take i cells ++ (p, v) :: drop i cells) =
  take i (contents cells) ++ v :: drop i (contents cells).
Proof.
  unfold contents. by rewrite fmap_app, fmap_cons, fmap_take, fmap_drop.
Qed.



(** C5.  [linked_list_create_iterator] returns [NULL] when the list is
    absent or the index is at least the size (so also at index 0 of an
    empty list).  When the index is below the size and the allocation
    succeeds, it returns the fresh iterator, whose [current_index] is the
    index, whose [current_node] is the node at that position and whose
    [data] is that node's data; nodes and list headers are untouched. *)
Theorem C5_create_iterator st fuel ll cells index :
  ll = NULL ∨ is_list st ll cells →
  0 ≤ index → (length cells < fuel)%nat →
  (ll = NULL ∨ Z.of_nat (length cells) ≤ index →
     linked_list_create_iterator fuel ll index st = Ok NULL st) ∧
  (ll ≠ NULL → index < Z.of_nat (length cells) →
     ∀ p rest, allocs st = p :: rest → p ≠ NULL →
     ∃ l d n st',
       cells !! Z.to_nat index = Some (l, d) ∧
       nodes st !! l = Some (Node d n) ∧
       linked_list_create_iterator fuel ll index st = Ok p st' ∧
       iters st' !! p = Some (Iterator ll index l d) ∧
       nodes st' = nodes st ∧ lists st' = lists st).
Proof.
  intros Hlist Hidx Hfuel. split.
  - intros [-> | Hge]; [done|]. destruct Hlist as [-> | Hlist]; [done|].
    by apply create_iterator_out_of_range with cells.
  - intros Hll Hlt p rest Hal Hp. destruct Hlist as [-> | Hlist]; [done|].
    assert (is_Some (cells !! Z.to_nat index)) as [[l d] Hk]
      by (apply lookup_lt_is_Some_2; lia).
    destruct (create_iterator_walk _ _ _ _ _ _ _ Hlist Hidx Hk Hfuel)
      as (_ & (n & Hl) & _).
    exists l, d, n. eexists. split; [done|]. split; [done|].
    split; [by eapply create_iterator_Ok|].
    split; [apply lookup_insert_eq | done].
Qed.

Lemma C5_witness :
  (100 = NULL ∨ Z.of_nat (length cells_two) ≤ 1 →
     linked_list_create_iterator 3 100 1 st_two = Ok NULL st_two) ∧
  (100 ≠ NULL → 1 < Z.of_nat (length cells_two) →
     ∀ p rest, allocs st_two = p :: rest → p ≠ NULL →
     ∃ l d n st',
       cells_two !! Z.to_nat 1 = Some (l, d) ∧
       nodes st_two !! l = Some (Node d n) ∧
       linked_list_create_iterator 3 100 1 st_two = Ok p st' ∧
       iters st' !! p = Some (Iterator 100 1 l d) ∧
       nodes st' = nodes st_two ∧ lists st' = lists st_two).
Proof.
  apply (C5_create_iterator st_two 3 100 cells_two 1).
  - right. exact st_two_is_list.
  - lia.
  - simpl. lia.
Defined.

Lemma iterate_n_past_end st it ll idx d n :
  it ≠ NULL → iters st !! it = Some (Iterator ll idx NULL d) →
  iterate_n n it st = Ok false st.
Proof.
  intros Hit Hi. induction n as [|n IH]; cbn [iterate_n].
  - by eapply iterate_past_end.
  - by rewrite (bind_Ok _ _ _ _ _ (iterate_past_end _ _ _ _ _ Hit Hi)).
Qed.

(** C6.  [linked_list_iterate] on an absent iterator returns [false].  On
    an iterator that stands on the node at position [k] of a well-formed
    list it returns [true] exactly when there is a node at position
    [k + 1]; it then stands on that node, [current_index] is [k + 1] and
    the cached data is that node's.  Otherwise it returns [false], the
    cached data is unchanged, the current node is [NULL], and every later
    call returns [false] too.  The list itself is never modified. *)
Theorem C6_iterate st it ll cells (k : nat) l d d0 :
  is_list st ll cells → it ≠ NULL →
  cells !! k = Some (l, d) →
  iters st !! it = Some (Iterator ll (Z.of_nat k) l d0) →
  linked_list_iterate NULL st = Ok false st ∧
  ∃ b st', linked_list_iterate it st = Ok b st' ∧
    (b = true ↔ is_Some (cells !! S k)) ∧
    (∀ l' d', cells !! S k = Some (l', d') →
       iters st' !! it = Some (Iterator ll (Z.of_nat k + 1) l' d')) ∧
    (cells !! S k = None →
       iters st' !! it = Some (Iterator ll (Z.of_nat k) NULL d0) ∧
       ∀ n, iterate_n n it st' = Ok false st') ∧
    nodes st' = nodes st ∧ lists st' = lists st.
Proof.
  intros (Hll & hd & Hhdr & Hseg) Hit Hk Hi. split; [done|].
  pose proof (lseg_length_bound _ _ _ Hseg) as Hbound.
  destruct (lseg_lookup _ _ _ _ _ _ Hseg Hk) as (Hv & _).
  pose proof (lseg_lookup_next _ _ _ _ _ _ Hseg Hk) as Hnext.
  destruct (cells !! S k) as [[l' d']|] eqn:HSk.
  - destruct Hnext as (Hl & Hv' & n' & Hl').
    pose proof (lookup_lt_Some _ _ _ HSk) as Hlt.
    exists true. eexists. split; [by eapply iterate_advance|].
    rewrite wrap_small by lia. msimpl.
    split; [done|]. split; [|done].
    intros ? ? [= <- <-]. apply lookup_insert_eq.
  - exists false. eexists. split; [by eapply iterate_at_last|]. msimpl.
    split; [split; [done | by intros [? ?]]|]. split; [done|].
    split; [|done]. intros _. split; [apply lookup_insert_eq|].
    intros n. eapply iterate_n_past_end; [done|]. msimpl. apply lookup_insert_eq.
Qed.

Lemma st_iter_is_list : is_list st_iter 100 cells_two.
Proof. exact st_two_is_list. Qed.

Lemma C6_witness :
  linked_list_iterate NULL st_iter = Ok false st_iter ∧
  ∃ b st', linked_list_iterate 24 st_iter = Ok b st' ∧
    (b = true ↔ is_Some (cells_two !! 2%nat)) ∧
    (∀ l' d', cells_two !! 2%nat = Some (l', d') →
       iters st' !! 24 = Some (Iterator 100 (Z.of_nat 1 + 1) l' d')) ∧
    (cells_two !! 2%nat = None →
       iters st' !! 24 = Some (Iterator 100 (Z.of_nat 1) NULL 9) ∧
       ∀ n, iterate_n n 24 st' = Ok false st') ∧
    nodes st' = nodes st_iter ∧ lists st' = lists st_iter.
Proof.
  apply (C6_iterate st_iter 24 100 cells_two 1 16 9 9).
  - exact st_iter_is_list.
  - discriminate.
  - reflexivity.
  - vm_compute. reflexivity.
Defined.

(** C7.  [linked_list_find] returns, without changing the state.  If the
    list is present and holds the value, the result is the lowest index at
    which the value occurs; if the list is absent or does not hold the
    value, the result is [SIZE_MAX]. *)
Theorem C7_find st fuel ll cells v :
  ll = NULL ∨ is_list st ll cells → (length cells < fuel)%nat →
  ∃ r, linked_list_find fuel ll v st = Ok r st ∧
    (ll ≠ NULL → v ∈ contents cells →
       ∃ i : nat, r = Z.of_nat i ∧ contents cells !! i = Some v ∧
                  ∀ j : nat, (j < i)%nat → contents cells !! j ≠ Some v) ∧
    (ll = NULL ∨ v ∉ contents cells → r = SIZE_MAX).
Proof.
  intros [-> | Hlist] Hfuel.
  - exists SIZE_MAX. split; [done|]. split; [by intros ?|done].
  - pose proof Hlist as (Hll & _).
    destruct (decide (v ∈ contents cells)) as [Hin | Hnin].
    + destruct (contents_first_occurrence _ _ Hin) as (c1 & c & c2 & -> & Hc & Hfirst).
      exists (Z.of_nat (length c1)). split.
      { apply (find_found _ _ _ c1 c c2); try done. rewrite length_app in Hfuel. lia. }
      split; [|by intros [? | ?]].
      intros _ _. exists (length c1). split; [done|].
      unfold contents. rewrite fmap_app, fmap_cons, Hc. split.
      * apply list_lookup_middle. by rewrite length_fmap.
      * intros j Hj Hlook. apply Hfirst.
        rewrite lookup_app_l in Hlook by (by rewrite length_fmap).
        by eapply list_elem_of_lookup_2.
    + exists SIZE_MAX. split; [by apply (find_miss _ _ _ cells)|]. split; [done|done].
Qed.

Lemma C7_witness :
  ∃ r, linked_list_find 3 100 9 st_two = Ok r st_two ∧
    (100 ≠ NULL → 9 ∈ contents cells_two →
       ∃ i : nat, r = Z.of_nat i ∧ contents cells_two !! i = Some 9 ∧
                  ∀ j : nat, (j < i)%nat → contents cells_two !! j ≠ Some 9) ∧
    (100 = NULL ∨ 9 ∉ contents cells_two → r = SIZE_MAX).
Proof.
  apply (C7_find st_two 3 100 cells_two 9).
  - right. exact st_two_is_list.
  - simpl. lia.
Defined.

Lemma st_created_is_list : is_list st_created 100 [].
Proof. split; [done|]. exists NULL. split; [by vm_compute | done]. Qed.

Lemma st_fresh_create : linked_list_create st_fresh = Ok 100 st_created.
Proof. by vm_compute. Qed.

Ltac run_ok_step :=
  eapply (run_cons _ 4%nat);
    [ first [ intros Hrm; discriminate Hrm
            | intros _; apply alloc_ok_intro; vm_compute;
              first [exact I | right; done] ]
    | vm_compute; try done; by split
    | vm_compute; reflexivity
    | ].

Lemma run_ok_inserts : run_ok 100 ops_inserts st_created st_inserted.
Proof. unfold ops_inserts. do 3 run_ok_step. apply run_nil. Qed.

Lemma st_reuse_created_is_list : is_list st_reuse_created 100 [].
Proof. split; [done|]. exists NULL. split; [by vm_compute | done]. Qed.

Lemma st_reuse_fresh_alloc_ok : alloc_ok st_reuse_fresh.
Proof. apply alloc_ok_intro. right. by vm_compute. Qed.

Lemma run_ok_reuse : run_ok 100 ops_reuse st_reuse_created st_reuse_final.
Proof. unfold ops_reuse. do 4 run_ok_step. apply run_nil. Qed.

(** In that run the state before the removal does not satisfy [alloc_ok]:
    the address the allocator returns next is still live there.  The run
    is a [run_ok] run all the same, since a removal does not allocate. *)
Lemma run_ok_reuse_block_live_before_remove :
  ¬ alloc_ok (State {[ 8 := Node 5 NULL ]} {[ 100 := LinkedList 8 1 ]} ∅ [8; 16]).
Proof.
  intros H. destruct (H 8 [16] eq_refl) as (_ & Hlive & _); [discriminate|].
  vm_compute in Hlive. discriminate.
Qed.

(** C2.  After [linked_list_create] and any sequence of operations that
    all succeeded, the cached size is the number of nodes reachable from
    the head, and it is zero exactly when the head is [NULL]. *)
Theorem C2_size_invariant st0 ll st1 ops st2 :
  linked_list_create st0 = Ok ll st1 → ll ≠ NULL →
  run_ok ll ops st1 st2 →
  ∃ hdr, lists st2 !! ll = Some hdr ∧
    (∀ fuel, (Z.to_nat (ll_size hdr) < fuel)%nat →
       count_nodes fuel ll st2 = Ok (ll_size hdr) st2) ∧
    linked_list_size ll st2 = Ok (ll_size hdr) st2 ∧
    (ll_size hdr = 0 ↔ ll_head hdr = NULL).
Proof.
  intros Hcreate Hll Hrun.
  pose proof (create_is_list _ _ _ Hcreate Hll) as Hlist.
  destruct (run_ok_is_list _ _ _ _ _ Hlist Hrun) as (cells & Hl2).
  pose proof Hl2 as (_ & hd & Hhdr & Hseg).
  eexists. split; [exact Hhdr|]. cbn [ll_size ll_head]. split; [|split].
  - intros fuel Hfuel. apply count_nodes_Ok; [done|]. lia.
  - by apply is_list_size.
  - by eapply is_list_head_NULL.
Qed.

Lemma C2_witness :
  ∃ hdr, lists st_reuse_final !! 100 = Some hdr ∧
    (∀ fuel, (Z.to_nat (ll_size hdr) < fuel)%nat →
       count_nodes fuel 100 st_reuse_final = Ok (ll_size hdr) st_reuse_final) ∧
    linked_list_size 100 st_reuse_final = Ok (ll_size hdr) st_reuse_final ∧
    (ll_size hdr = 0 ↔ ll_head hdr = NULL).
Proof.
  apply (C2_size_invariant st_reuse_fresh 100 st_reuse_created
           ops_reuse st_reuse_final).
  - vm_compute. reflexivity.
  - discriminate.
  - exact run_ok_reuse.
Defined.

(** C9.  Starting from an empty list, after any [N] insert operations
    that all succeeded, [N] calls of [linked_list_remove] at index 0 all
    succeed and leave the list empty: its size is 0 and its head is
    [NULL]. *)
Theorem C9_round_trip st1 ll ops st2 fuel :
  is_list st1 ll [] → run_ok ll ops st1 st2 →
  Forall (λ o, is_insert o = true) ops →
  ∃ st3, remove_front_n fuel ll (length ops) st2 = Ok true st3 ∧
         linked_list_size ll st3 = Ok 0 st3 ∧
         get_head ll st3 = Ok NULL st3.
Proof.
  intros Hlist Hrun Hins.
  destruct (run_ok_inserts_length _ _ _ _ _ Hlist Hrun Hins) as (cells & Hl2 & Hlen).
  cbn [length] in Hlen. rewrite Nat.add_0_l in Hlen. rewrite <- Hlen.
  destruct (remove_front_n_spec st2 fuel ll cells Hl2) as (st3 & Hex & Hl3).
  exists st3. split; [done|]. split; [by apply (is_list_size _ _ [])|].
  destruct Hl3 as (Hll & hd & Hhdr & Hseg). simpl in Hseg. subst hd.
  apply is_null_false in Hll. by rewrite (get_head_Ok _ _ _ Hll Hhdr).
Qed.

Lemma C9_witness :
  ∃ st3, remove_front_n 0 100 (length ops_inserts) st_inserted = Ok true st3 ∧
         linked_list_size 100 st3 = Ok 0 st3 ∧
         get_head 100 st3 = Ok NULL st3.
Proof.
  apply (C9_round_trip st_created 100 ops_inserts st_inserted 0).
  - exact st_created_is_list.
  - exact run_ok_inserts.
  - unfold ops_inserts. repeat constructor.
Defined.

(** * Further properties *)

(** ** Footprints *)

Ltac frame_tac :=
  unfold frame; cbn [nodes lists iters allocs];
  rewrite ?fmap_app, ?fmap_cons; cbn [fst snd];
  repeat split; try done;
  intros q; rewrite ?elem_of_app, ?elem_of_cons, ?elem_of_nil; intros;
  rewrite ?lookup_delete, ?lookup_insert;
  repeat case_decide; try done; try (intuition (subst; done)).

Lemma insert_front_frame st st' ll cells v p rest :
  is_list st ll cells → alloc_ok st → allocs st = p :: rest → p ≠ NULL →
  linked_list_insert_front ll v st = Ok true st' →
  frame ll st st' cells ((p, v) :: cells).
Proof.
  intros (Hll & hd & Hhdr & Hseg) Hok Hal Hp Hrun.
  destruct (Hok _ _ Hal Hp) as (Hv & Hfresh & _).
  rewrite (insert_front_Ok _ _ _ _ _ _ _ Hll Hhdr Hal Hp) in Hrun.
  injection Hrun as <-. frame_tac.
Qed.

Lemma insert_end_frame st st' fuel ll cells v p rest :
  is_list st ll cells → alloc_ok st → allocs st = p :: rest → p ≠ NULL →
  (length cells < fuel)%nat →
  linked_list_insert_end fuel ll v st = Ok true st' →
  frame ll st st' cells (cells ++ [(p, v)]).
Proof.
  intros (Hll & hd & Hhdr & Hseg) Hok Hal Hp Hfuel Hrun.
  destruct (Hok _ _ Hal Hp) as (Hv & Hfresh & _).
  destruct cells as [|[l d] cells' _] using rev_ind.
  - simpl in Hseg. subst hd.
    rewrite (insert_end_Ok_nil _ _ _ _ _ _ _ Hll Hhdr Hal Hp) in Hrun.
    injection Hrun as <-. frame_tac.
  - rewrite length_app in Hfuel. cbn [length] in Hfuel.
    rewrite (insert_end_Ok_snoc _ fuel _ _ _ _ _ _ _ _ _ Hll Hhdr Hseg Hal Hp Hfresh)
      in Hrun by lia.
    injection Hrun as <-. frame_tac.
Qed.

Lemma insert_mid_frame st st' fuel ll cells index v p rest :
  is_list st ll cells → alloc_ok st → allocs st = p :: rest → p ≠ NULL →
  0 < index < Z.of_nat (length cells) →
  (length cells < fuel)%nat →
  linked_list_insert fuel ll index v st = Ok true st' →
  frame ll st st' cells
    (take (Z.to_nat index) cells ++ (p, v) :: drop (Z.to_nat index) cells).
Proof.
  intros (Hll & hd & Hhdr & Hseg) Hok Hal Hp Hidx Hfuel Hrun.
  destruct (Hok _ _ Hal Hp) as (Hv & Hfresh & _).
  pose proof (lseg_length_bound _ _ _ Hseg) as Hbound.
  set (i := Z.to_nat index) in *.
  assert (length (take i cells) = i) as Hlen by (rewrite length_take; lia).
  pose proof (take_drop i cells) as Hcells.
  remember (drop i cells) as c2 eqn:Hc2. clear Hc2.
  destruct (take i cells) as [|[l d] c1 _] using rev_ind;
    [simpl in Hlen; lia|].
  rewrite length_app in Hlen. cbn [length] in Hlen.
  subst cells. rewrite <- app_assoc in Hseg. cbn [app] in Hseg.
  destruct (lseg_split_at _ _ _ _ _ _ Hseg) as (m & H1 & Hvl & Hl & _).
  rewrite !length_app in Hfuel, Hidx, Hbound. cbn [length] in Hfuel, Hidx, Hbound.
  assert (lseg (nodes st) hd (c1 ++ [(l, d)]) m) as Hseg1.
  { apply lseg_app. exists l. split; [done|]. cbn [lseg fst snd]. eauto 6. }
  rewrite (insert_mid_Ok _ fuel _ hd _ c1 l d m index v p rest Hll Hhdr Hseg1) in Hrun;
    try done; try (rewrite !length_app; cbn [length]; lia); try lia.
  injection Hrun as <-. frame_tac.
Qed.

Lemma remove_frame st st' fuel ll cells index :
  is_list st ll cells →
  0 ≤ index < Z.of_nat (length cells) →
  (length cells < fuel)%nat →
  linked_list_remove fuel ll index st = Ok true st' →
  frame ll st st' cells
    (take (Z.to_nat index) cells ++ drop (S (Z.to_nat index)) cells).
Proof.
  intros (Hll & hd & Hhdr & Hseg) Hidx Hfuel Hrun.
  pose proof (lseg_length_bound _ _ _ Hseg) as Hbound.
  pose proof (lseg_NoDup _ _ _ Hseg) as Hnd.
  destruct (decide (index = 0)) as [-> | Hnz].
  - destruct cells as [|[l d] cells]; [simpl in Hidx; lia|].
    destruct (lseg_split_at _ _ [] _ _ _ Hseg) as (n & Hhd & Hvl & Hl & H2 & _ & Hl2).
    simpl in Hhd. subst hd.
    rewrite (remove_zero_Ok _ _ _ _ d n _ Hll Hhdr) in Hrun; try done; try lia.
    injection Hrun as <-.
    change (Z.to_nat 0) with 0%nat. cbn [take drop app]. rewrite drop_0.
    frame_tac.
  - set (i := Z.to_nat index) in *.
    assert (length (take i cells) = i) as Hlen by (rewrite length_take; lia).
    assert (length (drop i cells) = (length cells - i)%nat) as Hlen' by apply length_drop.
    pose proof (take_drop i cells) as Hcells.
    assert (drop (S i) cells = drop 1 (drop i cells)) as ->.
    { replace (S i) with (i + 1)%nat by lia. by rewrite <- drop_drop. }
    remember (drop i cells) as c2' eqn:Hc2. clear Hc2.
    destruct (take i cells) as [|[l d] c1 _] using rev_ind; [simpl in Hlen; lia|].
    destruct c2' as [|[t dt] c2]; [simpl in Hlen'; lia|].
    cbn [drop]. rewrite drop_0.
    rewrite length_app in Hlen. cbn [length] in Hlen, Hlen'.
    subst cells.
    destruct (lseg_split_at _ _ _ _ _ _ Hseg) as (n & H1 & Hvt & Ht & H2 & Ht1 & Ht2).
    rewrite <- app_assoc in Hseg. cbn [app] in Hseg.
    destruct (lseg_split_at _ _ _ _ _ _ Hseg) as (t' & H1' & Hvl & Hl & _ & Hl1 & Hl2).
    rewrite fmap_cons in Hl2. apply not_elem_of_cons in Hl2 as [Hlt Hl2].
    cbn [fst] in Hlt.
    rewrite fmap_app in Ht1. apply not_elem_of_app in Ht1 as [Ht1 _].
    rewrite (remove_mid_Ok _ fuel _ hd _ c1 l d t dt n index Hll Hhdr) in Hrun;
      try done; try lia;
      try (rewrite !length_app in Hidx, Hfuel, Hbound;
           cbn [length] in Hidx, Hfuel, Hbound; lia).
    injection Hrun as <-. frame_tac.
Qed.

(** One successful operation: the list stays well formed, its element
    sequence changes as [apply_op] says, and nothing outside the list's
    own nodes and header is touched. *)
Lemma run_op_effect st st' fuel ll o cells :
  is_list st ll cells → (is_insert o = true → alloc_ok st) → op_args_ok o →
  run_op fuel ll o st = Ok true st' →
  ∃ cells', is_list st' ll cells' ∧
            contents cells' = apply_op o (contents cells) ∧
            frame ll st st' cells cells'.
Proof.
  intros Hlist Hok Hargs Hrun.
  set (F := (fuel `max` S (length cells))%nat).
  assert (run_op F ll o st = Ok true st') as HrunF.
  { apply (run_op_mono ll o fuel F); [lia | done]. }
  clear Hrun. assert (length cells < F)%nat as HF by lia. clearbody F.
  pose proof Hlist as (Hll & hd & Hhdr & Hseg).
  destruct o as [v | v | index v | index];
    cbn [run_op apply_op op_args_ok is_insert] in *;
    try specialize (Hok eq_refl).
  - destruct (alloc_cases st) as [Hf | (p & rest & Hal & Hp)].
    + rewrite (insert_front_fail _ _ _ Hll Hf) in HrunF. congruence.
    + destruct (insert_front_is_list _ _ _ v _ _ Hlist Hok Hal Hp)
        as (st'' & Hex & Hl' & _).
      pose proof HrunF as Hrun'. rewrite Hex in Hrun'. injection Hrun' as ->.
      exists ((p, v) :: cells). split; [done|]. split; [done|].
      by eapply insert_front_frame.
  - destruct (alloc_cases st) as [Hf | (p & rest & Hal & Hp)].
    + rewrite (insert_end_fail _ _ _ _ _ Hll Hhdr Hf) in HrunF. congruence.
    + destruct (insert_end_is_list _ F _ _ v _ _ Hlist Hok Hal Hp HF)
        as (st'' & Hex & Hl' & _).
      pose proof HrunF as Hrun'. rewrite Hex in Hrun'. injection Hrun' as ->.
      exists (cells ++ [(p, v)]). split; [done|].
      split; [unfold contents; by rewrite fmap_app|].
      by eapply insert_end_frame.
  - destruct (insert_spec st F ll cells index v Hlist Hok) as (Hgt & Hfail & Hsucc);
      [lia|done|].
    destruct (decide (Z.of_nat (length cells) < index)) as [Hlt | Hge].
    { rewrite (Hgt Hlt) in HrunF. congruence. }
    destruct (alloc_cases st) as [Hf | (p & rest & Hal & Hp)].
    { rewrite Hfail in HrunF by (done || lia). congruence. }
    destruct (Hsucc ltac:(lia) p rest Hal Hp) as (st'' & Hex & Hl' & _).
    pose proof HrunF as Hrun'. rewrite Hex in Hrun'. injection Hrun' as ->.
    eexists. split; [exact Hl'|]. split; [apply contents_insert|].
    destruct (decide (index = 0)) as [-> | Hnz].
    { rewrite (insert_zero _ _ _ _ _ Hll Hhdr) in HrunF by (cbn [ll_size]; lia).
      change (Z.to_nat 0) with 0%nat. cbn [take app]. rewrite drop_0.
      by eapply insert_front_frame. }
    destruct (decide (index = Z.of_nat (length cells))) as [-> | Hne].
    { rewrite (insert_at_size _ _ _ _ _ Hll Hhdr) in HrunF by (cbn [ll_size]; lia).
      rewrite Nat2Z.id, firstn_all, drop_all.
      by eapply insert_end_frame. }
    eapply insert_mid_frame; try done. lia.
  - destruct (remove_spec st F ll cells index Hlist) as (Hgt & Hend & Hcrash & Hsucc);
      [lia|done|].
    destruct (decide (Z.of_nat (length cells) < index)) as [Hlt | Hge].
    { rewrite (Hgt Hlt) in HrunF. congruence. }
    destruct (decide (index = Z.of_nat (length cells))) as [Heq | Hne].
    { destruct cells as [|c cells].
      - rewrite Hcrash in HrunF by done. congruence.
      - rewrite Hend in HrunF by done. congruence. }
    destruct (Hsucc ltac:(lia)) as (st'' & Hex & Hl' & _).
    pose proof HrunF as Hrun'. rewrite Hex in Hrun'. injection Hrun' as ->.
    eexists. split; [exact Hl'|].
    split; [unfold contents; by rewrite fmap_app, fmap_take, fmap_drop|].
    eapply remove_frame; try done. lia.
Qed.

(** ** Operations as sequence transformers *)

Lemma run_ok_effect ll ops st st' cells :
  is_list st ll cells → run_ok ll ops st st' →
  ∃ cells', is_list st' ll cells' ∧
            contents cells' = foldl (λ xs o, apply_op o xs) (contents cells) ops.
Proof.
  intros Hlist Hrun. revert cells Hlist.
  induction Hrun as [st | fuel o ops st st1 st2 Hok Hargs Hop Hrun IH];
    intros cells Hlist; [by exists cells|].
  destruct (run_op_effect _ _ _ _ _ _ Hlist Hok Hargs Hop) as (cells1 & Hl1 & Hc1 & _).
  destruct (IH _ Hl1) as (cells2 & Hl2 & Hc2).
  exists cells2. split; [done|]. cbn [foldl]. by rewrite <- Hc1.
Qed.

(** X1.  Any run of operations that all succeeded transforms the element
    sequence of the list exactly as the same operations transform a plain
    sequence ([apply_op]); the list stays well formed and
    [linked_list_size] returns the length of that sequence. *)
Theorem X1_run_refines_sequence ll ops st st' cells :
  is_list st ll cells → run_ok ll ops st st' →
  ∃ cells', is_list st' ll cells' ∧
    contents cells' = foldl (λ xs o, apply_op o xs) (contents cells) ops ∧
    linked_list_size ll st' =
      Ok (Z.of_nat (length (foldl (λ xs o, apply_op o xs) (contents cells) ops))) st'.
Proof.
  intros Hlist Hrun.
  destruct (run_ok_effect _ _ _ _ _ Hlist Hrun) as (cells' & Hl' & Hc).
  exists cells'. split; [done|]. split; [done|].
  rewrite <- Hc. unfold contents. rewrite length_fmap. by apply is_list_size.
Qed.

Lemma X1_witness :
  ∃ cells', is_list st_reuse_final 100 cells' ∧
    contents cells' =
      foldl (λ xs o, apply_op o xs) (contents []) ops_reuse ∧
    linked_list_size 100 st_reuse_final =
      Ok (Z.of_nat (length (foldl (λ xs o, apply_op o xs) (contents [])
                              ops_reuse))) st_reuse_final.
Proof.
  apply (X1_run_refines_sequence 100 ops_reuse
           st_reuse_created st_reuse_final []).
  - exact st_reuse_created_is_list.
  - exact run_ok_reuse.
Defined.

(** ** Two lists in one memory *)

Lemma lseg_ext h h' p cells r :
  (∀ q, q ∈ cells.*1 → h' !! q = h !! q) →
  lseg h p cells r → lseg h' p cells r.
Proof.
  revert p. induction cells as [|[l d] cells IH]; intros p Hext; simpl; [done|].
  intros (-> & Hv & n & Hn & Hrest).
  split; [done|]. split; [done|]. exists n. split.
  - rewrite Hext; [done|]. rewrite fmap_cons. by left.
  - apply IH; [|done]. intros q Hq. apply Hext. rewrite fmap_cons. by right.
Qed.

Lemma frame_other_list ll st st' cells cells' ll2 cells2 :
  frame ll st st' cells cells' →
  is_list st ll2 cells2 → ll2 ≠ ll →
  (∀ q, q ∈ cells.*1 → q ∉ cells2.*1) →
  is_list st' ll2 cells2 ∧ (∀ q, q ∈ cells'.*1 → q ∉ cells2.*1).
Proof.
  intros (F1 & F2 & F3 & F4 & F5) (Hll2 & hd2 & Hhdr2 & Hseg2) Hne Hdisj.
  assert (∀ q, q ∈ cells'.*1 → q ∉ cells2.*1) as Hdisj'.
  { intros q Hq' Hq2.
    destruct (decide (q ∈ cells.*1)) as [Hq | Hq]; [by apply (Hdisj q)|].
    destruct (lseg_live _ _ _ _ _ Hseg2 Hq2) as [[x Hx] _].
    rewrite (F2 q Hq' Hq) in Hx. done. }
  split; [|done]. split; [done|]. exists hd2. split; [by rewrite F4|].
  eapply lseg_ext; [|exact Hseg2]. intros q Hq2. apply F1.
  - intros Hq. by apply (Hdisj q).
  - intros Hq'. by apply (Hdisj' q).
Qed.

(** X4.  Operations on one list leave every other list alone: if the
    chains of two lists share no node, then after any run of successful
    operations on the first, the second is the same well-formed list, and
    no iterator has changed. *)
Theorem X4_other_list_untouched ll ops st st' cells ll2 cells2 :
  is_list st ll cells → is_list st ll2 cells2 → ll2 ≠ ll →
  (∀ q, q ∈ cells.*1 → q ∉ cells2.*1) →
  run_ok ll ops st st' →
  is_list st' ll2 cells2 ∧ iters st' = iters st.
Proof.
  intros Hlist Hlist2 Hne Hdisj Hrun. revert cells Hlist Hlist2 Hdisj.
  induction Hrun as [st | fuel o ops st st1 st2 Hok Hargs Hop Hrun IH];
    intros cells Hlist Hlist2 Hdisj; [done|].
  destruct (run_op_effect _ _ _ _ _ _ Hlist Hok Hargs Hop) as (cells1 & Hl1 & _ & Hfr).
  destruct (frame_other_list _ _ _ _ _ _ _ Hfr Hlist2 Hne Hdisj) as (Hl2 & Hdisj1).
  destruct (IH _ Hl1 Hl2 Hdisj1) as (Hfin & Hit).
  split; [done|]. rewrite Hit. by destruct Hfr as (_ & _ & _ & _ & ->).
Qed.

Lemma st_pair_is_list : is_list st_pair 100 cells_two.
Proof.
  split; [done|]. exists 8. split; [by vm_compute|].
  unfold cells_two. cbn [lseg fst snd].
  split; [done|]. split; [by vm_compute|]. exists 16. split; [by vm_compute|].
  split; [done|]. split; [by vm_compute|]. exists NULL. split; [by vm_compute|].
  done.
Qed.

Lemma st_pair_is_list2 : is_list st_pair 200 [(40, 1)].
Proof.
  split; [done|]. exists 40. split; [by vm_compute|].
  cbn [lseg fst snd].
  split; [done|]. split; [by vm_compute|]. exists NULL. split; [by vm_compute|].
  done.
Qed.

Lemma run_ok_pair : run_ok 100 ops_pair st_pair st_pair_after.
Proof. unfold ops_pair. do 3 run_ok_step. apply run_nil. Qed.

Lemma X4_witness :
  is_list st_pair_after 200 [(40, 1)] ∧ iters st_pair_after = iters st_pair.
Proof.
  apply (X4_other_list_untouched 100 ops_pair st_pair st_pair_after
           cells_two 200 [(40, 1)]).
  - exact st_pair_is_list.
  - exact st_pair_is_list2.
  - discriminate.
  - unfold cells_two. intros q Hq Hq2. cbn in Hq, Hq2.
    apply elem_of_cons in Hq2 as [-> | Hq2]; [|by apply elem_of_nil in Hq2].
    repeat (apply elem_of_cons in Hq as [Hq | Hq]; [discriminate|]).
    by apply elem_of_nil in Hq.
  - exact run_ok_pair.
Defined.

(** ** [linked_list_delete] and [linked_list_create] *)

Lemma free_list_Ok p l st :
  is_null p = false → lists st !! p = Some l →
  free_list p st = Ok () (with_lists (delete p) st).
Proof. unfold free_list. by intros -> ->. Qed.

Lemma delete_loop_Ok cells : ∀ st fuel cur,
  lseg (nodes st) cur cells NULL → (length cells < fuel)%nat →
  ∃ st', delete_loop fuel cur st = Ok () st' ∧
    (∀ q, q ∈ cells.*1 → nodes st' !! q = None) ∧
    (∀ q, q ∉ cells.*1 → nodes st' !! q = nodes st !! q) ∧
    lists st' = lists st ∧ iters st' = iters st ∧ allocs st' = allocs st.
Proof.
  induction cells as [|[l d] cells IH]; intros st fuel cur Hseg Hfuel;
    (destruct fuel as [|fuel]; [simpl in Hfuel; lia|]);
    cbn [delete_loop length] in *.
  - simpl in Hseg. subst cur. exists st. split; [done|].
    split; [intros q Hq; by apply elem_of_nil in Hq | done].
  - destruct (lseg_split_at _ _ [] _ _ _ Hseg) as (n & Hcur & Hv & Hl & H2 & _ & Hl2).
    simpl in Hcur. subst cur.
    rewrite (valid_ptr_not_null _ Hv).
    mstep_with get_next_Ok; [|by apply valid_ptr_not_null|done]. msimpl.
    mstep_with free_node_Ok; [|by apply valid_ptr_not_null|done]. msimpl.
    destruct (IH (with_nodes (delete l) st) fuel n) as (st' & Hex & Hin & Hout & Hls & Hits & Hal).
    { msimpl. by apply lseg_delete_ne. }
    { lia. }
    exists st'. split; [done|]. msimpl. rewrite fmap_cons. cbn [fst].
    split; [|split; [|done]].
    + intros q Hq. destruct (decide (q ∈ cells.*1)) as [Hq' | Hq']; [by apply Hin|].
      apply elem_of_cons in Hq as [-> | Hq]; [|done].
      rewrite (Hout l Hq'). apply lookup_delete_eq.
    + intros q Hq. apply not_elem_of_cons in Hq as [Hne Hq].
      rewrite (Hout q Hq). by apply lookup_delete_ne.
Qed.

Lemma delete_Ok st fuel ll cells :
  is_list st ll cells → (length cells < fuel)%nat →
  ∃ st', linked_list_delete fuel ll st = Ok true st' ∧
    (∀ q, q ∈ cells.*1 → nodes st' !! q = None) ∧
    (∀ q, q ∉ cells.*1 → nodes st' !! q = nodes st !! q) ∧
    lists st' = delete ll (lists st) ∧ iters st' = iters st ∧
    allocs st' = allocs st.
Proof.
  intros (Hll & hd & Hhdr & Hseg) Hfuel. unfold linked_list_delete.
  apply is_null_false in Hll. rewrite Hll.
  mstep_with get_head_Ok; [|done|done]. msimpl.
  destruct (delete_loop_Ok cells st fuel hd Hseg Hfuel)
    as (st1 & Hex & Hin & Hout & Hls & Hits & Hal).
  rewrite (bind_Ok _ _ _ _ _ Hex).
  mstep_with free_list_Ok; [|done|by rewrite Hls]. 
  rewrite mret_Ok. eexists. split; [done|]. msimpl.
  rewrite Hls. done.
Qed.

(** X6.  [linked_list_delete] returns [false] on an absent list and
    changes nothing.  On a well-formed list it returns [true] (given
    enough fuel for the walk), releases the header and exactly the nodes
    of the list: every other node, every other list header and every
    iterator is as before. *)
Theorem X6_delete st fuel ll cells :
  ll = NULL ∨ is_list st ll cells → (length cells < fuel)%nat →
  ∃ b st', linked_list_delete fuel ll st = Ok b st' ∧
    (b = true ↔ ll ≠ NULL) ∧
    (ll = NULL → st' = st) ∧
    (ll ≠ NULL →
       lists st' !! ll = None ∧
       (∀ q, q ∈ cells.*1 → nodes st' !! q = None) ∧
       (∀ q, q ∉ cells.*1 → nodes st' !! q = nodes st !! q) ∧
       (∀ q, q ≠ ll → lists st' !! q = lists st !! q) ∧
       iters st' = iters st).
Proof.
  intros [-> | Hlist] Hfuel.
  - exists false, st. split; [done|]. split; [by split|]. split; [done|done].
  - pose proof Hlist as (Hll & _).
    destruct (delete_Ok _ _ _ _ Hlist Hfuel) as (st' & Hex & Hin & Hout & Hls & Hits & _).
    exists true, st'. split; [done|]. split; [by split|]. split; [done|].
    intros _. rewrite Hls. split; [apply lookup_delete_eq|].
    split; [done|]. split; [done|]. split; [|done].
    intros q Hq. by apply lookup_delete_ne.
Qed.

Lemma X6_witness :
  ∃ b st', linked_list_delete 3 100 st_two = Ok b st' ∧
    (b = true ↔ 100 ≠ NULL) ∧
    (100 = NULL → st' = st_two) ∧
    (100 ≠ NULL →
       lists st' !! 100 = None ∧
       (∀ q, q ∈ cells_two.*1 → nodes st' !! q = None) ∧
       (∀ q, q ∉ cells_two.*1 → nodes st' !! q = nodes st_two !! q) ∧
       (∀ q, q ≠ 100 → lists st' !! q = lists st_two !! q) ∧
       iters st' = iters st_two).
Proof.
  apply (X6_delete st_two 3 100 cells_two).
  - right. exact st_two_is_list.
  - simpl. lia.
Defined.

Lemma rest_as_frame h0 l0 i0 ll st st' cells cells' :
  rest_as h0 l0 i0 ll st cells → frame ll st st' cells cells' →
  rest_as h0 l0 i0 ll st' cells'.
Proof.
  intros (R1 & R2 & R3 & R4) (F1 & F2 & F3 & F4 & F5).
  split; [|split; [|split]].
  - intros q Hq'. destruct (decide (q ∈ cells.*1)) as [Hq | Hq]; [by apply R1|].
    rewrite <- (R2 q Hq). by apply F2.
  - intros q Hq'. destruct (decide (q ∈ cells.*1)) as [Hq | Hq].
    + rewrite (F3 q Hq Hq'). symmetry. by apply R1.
    + rewrite (F1 q Hq Hq'). by apply R2.
  - intros q Hq. rewrite (F4 q Hq). by apply R3.
  - by rewrite F5.
Qed.

Lemma run_ok_rest_as h0 l0 i0 ll ops st st' cells :
  is_list st ll cells → rest_as h0 l0 i0 ll st cells →
  run_ok ll ops st st' →
  ∃ cells', is_list st' ll cells' ∧ rest_as h0 l0 i0 ll st' cells'.
Proof.
  intros Hlist Hrest Hrun. revert cells Hlist Hrest.
  induction Hrun as [st | fuel o ops st st1 st2 Hok Hargs Hop Hrun IH];
    intros cells Hlist Hrest; [eauto|].
  destruct (run_op_effect _ _ _ _ _ _ Hlist Hok Hargs Hop) as (cells1 & Hl1 & _ & Hfr).
  apply (IH cells1 Hl1). by eapply rest_as_frame.
Qed.

(** X5.  No leak: after [linked_list_create], any run of successful
    operations on the list and [linked_list_delete], the nodes, list
    headers and iterators in memory are exactly those from before the
    list was created. *)
Theorem X5_create_run_delete_restores_memory st0 ll st1 ops st2 :
  alloc_ok st0 → linked_list_create st0 = Ok ll st1 → ll ≠ NULL →
  run_ok ll ops st1 st2 →
  ∃ n : nat, ∀ fuel, (n < fuel)%nat →
    ∃ st3, linked_list_delete fuel ll st2 = Ok true st3 ∧
           nodes st3 = nodes st0 ∧ lists st3 = lists st0 ∧
           iters st3 = iters st0.
Proof.
  intros Hok Hcreate Hll Hrun.
  pose proof (create_is_list _ _ _ Hcreate Hll) as Hlist.
  assert (rest_as (nodes st0) (lists st0) (iters st0) ll st1 [] ∧
          lists st0 !! ll = None) as [Hrest Hfresh].
  { destruct (alloc_cases st0) as [Hf | (p & rest & Hal & Hp)].
    - rewrite (create_fail _ Hf) in Hcreate. congruence.
    - rewrite (create_Ok _ _ _ Hal Hp) in Hcreate. injection Hcreate as <- <-.
      destruct (Hok _ _ Hal Hp) as (_ & _ & Hfl & _). split; [|done].
      split; [intros q Hq; by apply elem_of_nil in Hq|]. split; [done|].
      split; [|done]. intros q Hq. msimpl. by apply lookup_insert_ne. }
  destruct (run_ok_rest_as _ _ _ _ _ _ _ _ Hlist Hrest Hrun)
    as (cells & Hl2 & R1 & R2 & R3 & R4).
  exists (length cells). intros fuel Hfuel.
  destruct (delete_Ok _ _ _ _ Hl2 Hfuel) as (st3 & Hex & Hin & Hout & Hls & Hits & _).
  exists st3. split; [done|]. split; [|split].
  - apply map_eq. intros q.
    destruct (decide (q ∈ cells.*1)) as [Hq | Hq].
    + rewrite (Hin q Hq). symmetry. by apply R1.
    + rewrite (Hout q Hq). by apply R2.
  - rewrite Hls. apply map_eq. intros q.
    destruct (decide (q = ll)) as [-> | Hq].
    + by rewrite lookup_delete_eq.
    + rewrite lookup_delete_ne by done. by apply R3.
  - by rewrite Hits.
Qed.

Lemma X5_witness :
  ∃ n : nat, ∀ fuel, (n < fuel)%nat →
    ∃ st3, linked_list_delete fuel 100 st_reuse_final = Ok true st3 ∧
           nodes st3 = nodes st_reuse_fresh ∧ lists st3 = lists st_reuse_fresh ∧
           iters st3 = iters st_reuse_fresh.
Proof.
  apply (X5_create_run_delete_restores_memory st_reuse_fresh 100
           st_reuse_created ops_reuse st_reuse_final).
  - exact st_reuse_fresh_alloc_ok.
  - vm_compute. reflexivity.
  - discriminate.
  - exact run_ok_reuse.
Defined.

(** X7.  [linked_list_create] returns [NULL] exactly when the allocation
    fails, and then leaves nodes, headers and iterators as they are.
    Otherwise it returns the address of a new header that was not live
    before, the new list is well formed and empty (size 0), and every
    list that was well formed before still is. *)
Theorem X7_create st :
  alloc_ok st →
  ∃ ll st', linked_list_create st = Ok ll st' ∧
    (ll = NULL ↔ alloc_fails st) ∧
    nodes st' = nodes st ∧ iters st' = iters st ∧
    (ll = NULL → lists st' = lists st) ∧
    (ll ≠ NULL →
       lists st !! ll = None ∧ is_list st' ll [] ∧
       linked_list_size ll st' = Ok 0 st' ∧
       ∀ ll2 cells2, is_list st ll2 cells2 → is_list st' ll2 cells2).
Proof.
  intros Hok.
  destruct (alloc_cases st) as [Hf | (p & rest & Hal & Hp)].
  - exists NULL, (pop_alloc st). split; [by apply create_fail|].
    split; [by split|]. split; [done|]. split; [done|]. split; [done|done].
  - destruct (Hok _ _ Hal Hp) as (_ & _ & Hfl & _).
    eexists p, _. split; [by apply create_Ok|]. msimpl.
    split; [split; [done | unfold alloc_fails; by rewrite Hal]|].
    split; [done|]. split; [done|]. split; [done|]. intros _.
    split; [done|].
    assert (is_list (State (nodes st) (<[p:=LinkedList NULL 0]> (lists st))
                      (iters st) rest) p []) as Hnew.
    { split; [done|]. exists NULL. split; [apply lookup_insert_eq | done]. }
    split; [done|]. split; [by apply (is_list_size _ _ [])|].
    intros ll2 cells2 (Hll2 & hd2 & Hhdr2 & Hseg2).
    split; [done|]. exists hd2. split; [|done]. msimpl.
    rewrite lookup_insert_ne; [done | congruence].
Qed.

Lemma X7_witness :
  ∃ ll st', linked_list_create st_two = Ok ll st' ∧
    (ll = NULL ↔ alloc_fails st_two) ∧
    nodes st' = nodes st_two ∧ iters st' = iters st_two ∧
    (ll = NULL → lists st' = lists st_two) ∧
    (ll ≠ NULL →
       lists st_two !! ll = None ∧ is_list st' ll [] ∧
       linked_list_size ll st' = Ok 0 st' ∧
       ∀ ll2 cells2, is_list st_two ll2 cells2 → is_list st' ll2 cells2).
Proof.
  apply (X7_create st_two). exact st_two_alloc_ok.
Defined.

(** ** Single operations *)

(** X2.  [linked_list_remove] at an index below the size returns [true]:
    the element at that index is gone and the others keep their order,
    the size is one less, the node that held the element is released, and
    no iterator is touched. *)
Theorem X2_remove_in_range st fuel ll cells index :
  is_list st ll cells → 0 ≤ index < Z.of_nat (length cells) →
  (length cells < fuel)%nat →
  ∃ st' cells' l d,
    cells !! Z.to_nat index = Some (l, d) ∧
    linked_list_remove fuel ll index st = Ok true st' ∧
    is_list st' ll cells' ∧
    contents cells' =
      take (Z.to_nat index) (contents cells) ++
      drop (S (Z.to_nat index)) (contents cells) ∧
    linked_list_size ll st' = Ok (Z.of_nat (length cells) - 1) st' ∧
    nodes st' !! l = None ∧
    iters st' = iters st.
Proof.
  intros Hlist Hidx Hfuel.
  destruct (remove_is_list _ _ _ _ _ Hlist Hidx Hfuel) as (st' & Hex & Hl' & Hits & _).
  pose proof (remove_frame _ _ _ _ _ _ Hlist Hidx Hfuel Hex) as (_ & _ & F3 & _).
  assert (is_Some (cells !! Z.to_nat index)) as [[l d] Hk]
    by (apply lookup_lt_is_Some_2; lia).
  exists st', (take (Z.to_nat index) cells ++ drop (S (Z.to_nat index)) cells), l, d.
  split; [done|]. split; [done|]. split; [exact Hl'|].
  split; [unfold contents; by rewrite fmap_app, fmap_take, fmap_drop|].
  split; [|split; [|done]].
  - rewrite (is_list_size _ _ _ Hl'). f_equal.
    rewrite length_app, length_take, length_drop. lia.
  - destruct Hlist as (_ & hd & _ & Hseg).
    pose proof (lseg_NoDup _ _ _ Hseg) as Hnd.
    rewrite <- (take_drop_middle _ _ _ Hk) in Hnd.
    rewrite fmap_app, fmap_cons in Hnd. cbn [fst] in Hnd.
    apply NoDup_app in Hnd as (_ & Hdisj & Hnd).
    apply NoDup_cons in Hnd as [Hn2 _].
    apply F3.
    + apply list_elem_of_fmap. exists (l, d). split; [done|].
      by eapply list_elem_of_lookup_2.
    + rewrite fmap_app. intros Hin. apply elem_of_app in Hin as [Hin | Hin]; [|done].
      apply (Hdisj _ Hin). by left.
Qed.

Lemma X2_witness :
  ∃ st' cells' l d,
    cells_two !! Z.to_nat 0 = Some (l, d) ∧
    linked_list_remove 3 100 0 st_two = Ok true st' ∧
    is_list st' 100 cells' ∧
    contents cells' =
      take (Z.to_nat 0) (contents cells_two) ++
      drop (S (Z.to_nat 0)) (contents cells_two) ∧
    linked_list_size 100 st' = Ok (Z.of_nat (length cells_two) - 1) st' ∧
    nodes st' !! l = None ∧
    iters st' = iters st_two.
Proof.
  apply (X2_remove_in_range st_two 3 100 cells_two 0).
  - exact st_two_is_list.
  - simpl. lia.
  - simpl. lia.
Defined.

(** X3.  On a well-formed list [linked_list_insert_front] and
    [linked_list_insert_end] return [true] exactly when the allocation
    succeeds; then the first has put the value before all elements and
    the second after all elements, and the size is one more. *)
Theorem X3_insert_front_and_end st fuel ll cells v :
  is_list st ll cells → alloc_ok st → (length cells < fuel)%nat →
  ∃ b st1 st2,
    linked_list_insert_front ll v st = Ok b st1 ∧
    linked_list_insert_end fuel ll v st = Ok b st2 ∧
    (b = true ↔ alloc_succeeds st) ∧
    (b = true →
       ∃ cells1 cells2,
         is_list st1 ll cells1 ∧ contents cells1 = v :: contents cells ∧
         is_list st2 ll cells2 ∧ contents cells2 = contents cells ++ [v] ∧
         linked_list_size ll st1 = Ok (Z.of_nat (length cells) + 1) st1 ∧
         linked_list_size ll st2 = Ok (Z.of_nat (length cells) + 1) st2).
Proof.
  intros Hlist Hok Hfuel. pose proof Hlist as (Hll & hd & Hhdr & Hseg).
  destruct (alloc_cases st) as [Hf | (p & rest & Hal & Hp)].
  - exists false, (pop_alloc st), (pop_alloc st).
    split; [by apply insert_front_fail|]. split; [by eapply insert_end_fail|].
    split; [|done]. split; [done|]. intros Hs. by apply alloc_fails_not_succeeds in Hs.
  - destruct (insert_front_is_list _ _ _ v _ _ Hlist Hok Hal Hp) as (st1 & Hex1 & Hl1 & _).
    destruct (insert_end_is_list _ fuel _ _ v _ _ Hlist Hok Hal Hp Hfuel)
      as (st2 & Hex2 & Hl2 & _).
    exists true, st1, st2. split; [done|]. split; [done|].
    split; [split; [|done]; intros _; apply alloc_succeeds_inv; eauto|].
    intros _. exists ((p, v) :: cells), (cells ++ [(p, v)]).
    split; [done|]. split; [done|]. split; [done|].
    split; [unfold contents; by rewrite fmap_app|].
    rewrite (is_list_size _ _ _ Hl1), (is_list_size _ _ _ Hl2).
    rewrite length_app. cbn [length]. split; f_equal; lia.
Qed.

Lemma X3_witness :
  ∃ b st1 st2,
    linked_list_insert_front 100 5 st_two = Ok b st1 ∧
    linked_list_insert_end 3 100 5 st_two = Ok b st2 ∧
    (b = true ↔ alloc_succeeds st_two) ∧
    (b = true →
       ∃ cells1 cells2,
         is_list st1 100 cells1 ∧ contents cells1 = 5 :: contents cells_two ∧
         is_list st2 100 cells2 ∧ contents cells2 = contents cells_two ++ [5] ∧
         linked_list_size 100 st1 = Ok (Z.of_nat (length cells_two) + 1) st1 ∧
         linked_list_size 100 st2 = Ok (Z.of_nat (length cells_two) + 1) st2).
Proof.
  apply (X3_insert_front_and_end st_two 3 100 cells_two 5).
  - exact st_two_is_list.
  - exact st_two_alloc_ok.
  - simpl. lia.
Defined.

(** ** [linked_list_find] composed with the other functions *)

(** X8.  On a well-formed list the sentinel of [linked_list_find] is
    unambiguous: the result is [SIZE_MAX] exactly when no node holds the
    value, and any other result is an index below the size at which the
    value is stored. *)
Theorem X8_find_sentinel_unambiguous st fuel ll cells v :
  is_list st ll cells → (length cells < fuel)%nat →
  ∃ r, linked_list_find fuel ll v st = Ok r st ∧
       (r = SIZE_MAX ↔ v ∉ contents cells) ∧
       (r ≠ SIZE_MAX →
          0 ≤ r < Z.of_nat (length cells) ∧
          contents cells !! Z.to_nat r = Some v).
Proof.
  intros Hlist Hfuel. pose proof Hlist as (_ & hd & _ & Hseg).
  pose proof (lseg_length_bound _ _ _ Hseg) as Hbound.
  destruct (decide (v ∈ contents cells)) as [Hin | Hnin].
  - destruct (contents_first_occurrence _ _ Hin) as (c1 & c & c2 & -> & Hc & Hfirst).
    rewrite length_app in Hfuel, Hbound. cbn [length] in Hfuel, Hbound.
    exists (Z.of_nat (length c1)). split.
    { apply (find_found _ _ _ c1 c c2); try done. lia. }
    split; [split; [lia | done]|]. intros _.
    rewrite length_app. cbn [length]. split; [lia|].
    rewrite Nat2Z.id. unfold contents. rewrite fmap_app, fmap_cons, Hc.
    apply list_lookup_middle. by rewrite length_fmap.
  - exists SIZE_MAX. split; [by apply (find_miss _ _ _ cells)|].
    split; [done | done].
Qed.

Lemma X8_witness :
  ∃ r, linked_list_find 3 100 9 st_two = Ok r st_two ∧
       (r = SIZE_MAX ↔ 9 ∉ contents cells_two) ∧
       (r ≠ SIZE_MAX →
          0 ≤ r < Z.of_nat (length cells_two) ∧
          contents cells_two !! Z.to_nat r = Some 9).
Proof.
  apply (X8_find_sentinel_unambiguous st_two 3 100 cells_two 9).
  - exact st_two_is_list.
  - simpl. lia.
Defined.

(** X9.  Insert, then look up: after a successful [linked_list_insert] of
    [v] at [index], [linked_list_find] of [v] returns an index that is at
    most [index], and exactly [index] when [v] does not occur before that
    position. *)
Theorem X9_find_after_insert st fuel ll cells index v :
  is_list st ll cells → alloc_ok st → alloc_succeeds st →
  0 ≤ index ≤ Z.of_nat (length cells) →
  (S (length cells) < fuel)%nat →
  ∃ r st',
    (linked_list_insert fuel ll index v;; linked_list_find fuel ll v) st = Ok r st' ∧
    0 ≤ r ≤ index ∧
    (v ∉ take (Z.to_nat index) (contents cells) → r = index).
Proof.
  intros Hlist Hok Hsucc Hidx Hfuel.
  apply alloc_succeeds_inv in Hsucc as (p & rest & Hal & Hp).
  destruct (insert_spec st fuel ll cells index v Hlist Hok) as (_ & _ & Hins);
    [lia|lia|].
  destruct (Hins ltac:(lia) p rest Hal Hp) as (st' & Hex & Hl' & _).
  set (i := Z.to_nat index) in *.
  assert (length (take i cells) = i) as Hlen by (rewrite length_take; lia).
  rewrite (bind_Ok _ _ _ _ _ Hex).
  destruct (decide (v ∈ contents (take i cells))) as [Hin | Hnin].
  - destruct (contents_first_occurrence _ _ Hin) as (c1 & c & c2 & Htake & Hc & Hfirst).
    rewrite Htake in Hl', Hlen. rewrite <- app_assoc in Hl'. cbn [app] in Hl'.
    rewrite length_app in Hlen. cbn [length] in Hlen.
    exists (Z.of_nat (length c1)), st'. split.
    { apply (find_found _ _ _ c1 c _ _ Hl'); try done. lia. }
    split; [lia|]. intros Hnot. exfalso. apply Hnot.
    unfold contents in Hin. by rewrite fmap_take in Hin.
  - exists index, st'. split.
    { assert (linked_list_find fuel ll v st' =
                Ok (Z.of_nat (length (take i cells))) st') as Hf.
      { apply (find_found _ _ _ _ (p, v) _ _ Hl'); try done. lia. }
      rewrite Hlen in Hf. unfold i in Hf. by rewrite Z2Nat.id in Hf by lia. }
    split; [lia | done].
Qed.

Lemma X9_witness :
  ∃ r st',
    (linked_list_insert 4 100 2 9;; linked_list_find 4 100 9) st_two = Ok r st' ∧
    0 ≤ r ≤ 2 ∧
    (9 ∉ take (Z.to_nat 2) (contents cells_two) → r = 2).
Proof.
  apply (X9_find_after_insert st_two 4 100 cells_two 2 9).
  - exact st_two_is_list.
  - exact st_two_alloc_ok.
  - discriminate.
  - simpl. lia.
  - simpl. lia.
Defined.

(** X10.  Look up, then remove: when the value occurs in the list,
    [linked_list_remove] at the index that [linked_list_find] returned
    succeeds and removes the first occurrence of the value, keeping all
    other elements in order. *)
Theorem X10_remove_found st fuel ll cells v :
  is_list st ll cells → v ∈ contents cells → (length cells < fuel)%nat →
  ∃ st' cells' xs1 xs2,
    (i ← linked_list_find fuel ll v; linked_list_remove fuel ll i) st = Ok true st' ∧
    contents cells = xs1 ++ v :: xs2 ∧ (v ∉ xs1) ∧
    is_list st' ll cells' ∧ contents cells' = xs1 ++ xs2.
Proof.
  intros Hlist Hin Hfuel.
  destruct (contents_first_occurrence _ _ Hin) as (c1 & c & c2 & -> & Hc & Hfirst).
  rewrite length_app in Hfuel. cbn [length] in Hfuel.
  assert (linked_list_find fuel ll v st = Ok (Z.of_nat (length c1)) st) as Hfind.
  { apply (find_found _ _ _ c1 c c2); try done. lia. }
  rewrite (bind_Ok _ _ _ _ _ Hfind).
  destruct (remove_is_list st fuel ll (c1 ++ c :: c2) (Z.of_nat (length c1)) Hlist)
    as (st' & Hex & Hl' & _).
  { rewrite length_app. cbn [length]. lia. }
  { rewrite length_app. cbn [length]. lia. }
  rewrite Nat2Z.id in Hl'.
  rewrite take_app_length in Hl'.
  replace (S (length c1)) with (length (c1 ++ [c])) in Hl'
    by (rewrite length_app; cbn [length]; lia).
  rewrite (cons_middle c c1 c2), (assoc_L (++)), drop_app_length in Hl'.
  exists st', (c1 ++ c2), (contents c1), (contents c2).
  split; [done|]. unfold contents. rewrite !fmap_app, fmap_cons, Hc. done.
Qed.

Lemma X10_witness :
  ∃ st' cells' xs1 xs2,
    (i ← linked_list_find 3 100 9; linked_list_remove 3 100 i) st_two = Ok true st' ∧
    contents cells_two = xs1 ++ 9 :: xs2 ∧ (9 ∉ xs1) ∧
    is_list st' 100 cells' ∧ contents cells' = xs1 ++ xs2.
Proof.
  apply (X10_remove_found st_two 3 100 cells_two 9).
  - exact st_two_is_list.
  - vm_compute. apply list_elem_of_further, list_elem_of_here.
  - simpl. lia.
Defined.

(** X11.  A failed look-up is harmless downstream: when the value does
    not occur, the [SIZE_MAX] that [linked_list_find] returns makes both
    [linked_list_remove] and [linked_list_create_iterator] fail without
    changing the state. *)
Theorem X11_find_miss_is_rejected st fuel ll cells v :
  is_list st ll cells → v ∉ contents cells → (length cells < fuel)%nat →
  (i ← linked_list_find fuel ll v; linked_list_remove fuel ll i) st = Ok false st ∧
  (i ← linked_list_find fuel ll v; linked_list_create_iterator fuel ll i) st
    = Ok NULL st.
Proof.
  intros Hlist Hnin Hfuel. pose proof Hlist as (_ & hd & _ & Hseg).
  pose proof (lseg_length_bound _ _ _ Hseg) as Hbound.
  pose proof (find_miss _ _ _ _ _ Hlist Hnin Hfuel) as Hfind.
  rewrite !(bind_Ok _ _ _ _ _ Hfind). split.
  - destruct (remove_spec st fuel ll cells SIZE_MAX Hlist) as (Hgt & Hend & _);
      [apply SIZE_MAX_nonneg | done |].
    destruct (decide (Z.of_nat (length cells) < SIZE_MAX)) as [Hlt | Hge];
      [by apply Hgt|].
    apply Hend; [lia|]. intros ->. cbn [length] in Hge. unfold SIZE_MAX in Hge. lia.
  - by apply create_iterator_out_of_range with cells.
Qed.

Lemma X11_witness :
  (i ← linked_list_find 3 100 4; linked_list_remove 3 100 i) st_two = Ok false st_two ∧
  (i ← linked_list_find 3 100 4; linked_list_create_iterator 3 100 i) st_two
    = Ok NULL st_two.
Proof.
  apply (X11_find_miss_is_rejected st_two 3 100 cells_two 4).
  - exact st_two_is_list.
  - vm_compute. intros Hin.
    repeat (apply elem_of_cons in Hin as [Hin | Hin]; [discriminate|]).
    by apply elem_of_nil in Hin.
  - simpl. lia.
Defined.

(** ** Iterators *)

Lemma is_list_same_mem st st' ll cells :
  nodes st' = nodes st → lists st' = lists st →
  is_list st ll cells → is_list st' ll cells.
Proof. intros Hn Hl (Hll & hd & Hhdr & Hseg). unfold is_list. rewrite Hn, Hl. eauto. Qed.

Lemma iterate_next st it ll cells (k : nat) l d d0 l' d' :
  is_list st ll cells → it ≠ NULL →
  cells !! k = Some (l, d) →
  iters st !! it = Some (Iterator ll (Z.of_nat k) l d0) →
  cells !! S k = Some (l', d') →
  linked_list_iterate it st =
    Ok true (State (nodes st) (lists st)
                   (<[it := Iterator ll (Z.of_nat (S k)) l' d']> (iters st))
                   (allocs st)).
Proof.
  intros (Hll & hd & Hhdr & Hseg) Hit Hk Hi HSk.
  pose proof (lseg_length_bound _ _ _ Hseg) as Hbound.
  destruct (lseg_lookup _ _ _ _ _ _ Hseg Hk) as (Hv & _).
  pose proof (lseg_lookup_next _ _ _ _ _ _ Hseg Hk) as Hnext.
  rewrite HSk in Hnext. destruct Hnext as (Hl & Hv' & n' & Hl').
  pose proof (lookup_lt_Some _ _ _ HSk) as Hlt.
  rewrite (iterate_advance _ _ _ _ _ _ _ _ _ _ Hit Hi Hv Hl Hv' Hl').
  rewrite wrap_small by lia. by rewrite Nat2Z.inj_succ.
Qed.

Lemma iterate_last st it ll cells (k : nat) l d d0 :
  is_list st ll cells → it ≠ NULL →
  cells !! k = Some (l, d) →
  iters st !! it = Some (Iterator ll (Z.of_nat k) l d0) →
  cells !! S k = None →
  linked_list_iterate it st =
    Ok false (State (nodes st) (lists st)
                    (<[it := Iterator ll (Z.of_nat k) NULL d0]> (iters st))
                    (allocs st)).
Proof.
  intros (Hll & hd & Hhdr & Hseg) Hit Hk Hi HSk.
  destruct (lseg_lookup _ _ _ _ _ _ Hseg Hk) as (Hv & _).
  pose proof (lseg_lookup_next _ _ _ _ _ _ Hseg Hk) as Hnext.
  rewrite HSk in Hnext. by eapply iterate_at_last.
Qed.

Lemma iterate_n_reaches ll it cells (j : nat) : ∀ st (k : nat) l d d0 l' d',
  is_list st ll cells → it ≠ NULL →
  cells !! k = Some (l, d) →
  iters st !! it = Some (Iterator ll (Z.of_nat k) l d0) →
  cells !! (k + S j)%nat = Some (l', d') →
  ∃ st', iterate_n j it st = Ok true st' ∧
         iters st' !! it = Some (Iterator ll (Z.of_nat (k + S j)) l' d') ∧
         nodes st' = nodes st ∧ lists st' = lists st.
Proof.
  induction j as [|j IH]; intros st k l d d0 l' d' Hlist Hit Hk Hi Hj;
    cbn [iterate_n].
  - rewrite Nat.add_1_r in Hj |- *.
    rewrite (iterate_next _ _ _ _ _ _ _ _ _ _ Hlist Hit Hk Hi Hj).
    eexists. split; [done|]. msimpl. split; [apply lookup_insert_eq | done].
  - assert (is_Some (cells !! S k)) as [[l1 d1] HSk].
    { apply lookup_lt_is_Some_2. apply lookup_lt_Some in Hj. lia. }
    rewrite (bind_Ok _ _ _ _ _ (iterate_next _ _ _ _ _ _ _ _ _ _ Hlist Hit Hk Hi HSk)).
    replace (k + S (S j))%nat with (S k + S j)%nat in Hj |- * by lia.
    set (st1 := State (nodes st) (lists st)
                  (<[it := Iterator ll (Z.of_nat (S k)) l1 d1]> (iters st))
                  (allocs st)).
    destruct (IH st1 (S k) l1 d1 d1 l' d') as (st' & Hex & Hi' & Hn & Hl);
      [by eapply is_list_same_mem; [| |exact Hlist] | done | done
      | apply lookup_insert_eq | done |].
    exists st'. split; [done|]. split; [done|]. by rewrite Hn, Hl.
Qed.

Lemma iterate_n_stops ll it cells (j : nat) : ∀ st (k : nat) l d,
  is_list st ll cells → it ≠ NULL →
  cells !! k = Some (l, d) →
  iters st !! it = Some (Iterator ll (Z.of_nat k) l d) →
  length cells = (k + S j)%nat →
  ∃ st' dlast, iterate_n j it st = Ok false st' ∧
         last (contents cells) = Some dlast ∧
         iters st' !! it =
           Some (Iterator ll (Z.of_nat (length cells) - 1) NULL dlast) ∧
         nodes st' = nodes st ∧ lists st' = lists st.
Proof.
  induction j as [|j IH]; intros st k l d Hlist Hit Hk Hi Hlen;
    cbn [iterate_n].
  - assert (cells !! S k = None) as HSk by (apply lookup_ge_None; lia).
    rewrite (iterate_last _ _ _ _ _ _ _ _ Hlist Hit Hk Hi HSk).
    eexists _, d. split; [done|]. msimpl. split; [|split; [|done]].
    + unfold contents. rewrite last_lookup, length_fmap, list_lookup_fmap.
      replace (Nat.pred (length cells)) with k by lia. by rewrite Hk.
    + rewrite lookup_insert_eq. do 3 f_equal. lia.
  - assert (is_Some (cells !! S k)) as [[l1 d1] HSk].
    { apply lookup_lt_is_Some_2. lia. }
    rewrite (bind_Ok _ _ _ _ _ (iterate_next _ _ _ _ _ _ _ _ _ _ Hlist Hit Hk Hi HSk)).
    set (st1 := State (nodes st) (lists st)
                  (<[it := Iterator ll (Z.of_nat (S k)) l1 d1]> (iters st))
                  (allocs st)).
    destruct (IH st1 (S k) l1 d1) as (st' & dlast & Hex & Hlast & Hi' & Hn & Hl);
      [by eapply is_list_same_mem; [| |exact Hlist] | done | done
      | apply lookup_insert_eq | lia |].
    exists st', dlast. split; [done|]. split; [done|]. split; [done|].
    by rewrite Hn, Hl.
Qed.

(** X12.  An iterator created at [index] walks the rest of the list in
    order: call number [j + 1] of [linked_list_iterate] returns [true]
    and leaves the iterator on position [index + j + 1], caching the
    element stored there, for as long as that position exists; the call
    after the last element returns [false] with the last element still
    cached and the current node [NULL]. *)
Theorem X12_iterator_traversal st fuel ll cells index :
  is_list st ll cells → 0 ≤ index < Z.of_nat (length cells) →
  alloc_succeeds st → (length cells < fuel)%nat →
  ∃ it st1,
    linked_list_create_iterator fuel ll index st = Ok it st1 ∧ it ≠ NULL ∧
    (∀ j : nat, (Z.to_nat index + S j < length cells)%nat →
       ∃ st2 l' d',
         iterate_n j it st1 = Ok true st2 ∧
         contents cells !! (Z.to_nat index + S j)%nat = Some d' ∧
         iters st2 !! it =
           Some (Iterator ll (index + Z.of_nat (S j)) l' d')) ∧
    (∃ st2 dlast,
       iterate_n (length cells - 1 - Z.to_nat index) it st1 = Ok false st2 ∧
       last (contents cells) = Some dlast ∧
       iters st2 !! it =
         Some (Iterator ll (Z.of_nat (length cells) - 1) NULL dlast)).
Proof.
  intros Hlist Hidx Hsucc Hfuel.
  apply alloc_succeeds_inv in Hsucc as (p & rest & Hal & Hp).
  assert (is_Some (cells !! Z.to_nat index)) as [[l d] Hk]
    by (apply lookup_lt_is_Some_2; lia).
  pose proof (create_iterator_Ok _ _ _ _ _ _ _ _ _ Hlist (proj1 Hidx) Hk Hal Hp Hfuel)
    as Hcreate.
  set (st1 := State (nodes st) (lists st)
                (<[p := Iterator ll index l d]> (iters st)) rest) in *.
  assert (is_list st1 ll cells) as Hlist1
    by (by eapply is_list_same_mem; [| |exact Hlist]).
  assert (iters st1 !! p = Some (Iterator ll (Z.of_nat (Z.to_nat index)) l d)) as Hi.
  { rewrite Z2Nat.id by lia. apply lookup_insert_eq. }
  exists p, st1. split; [done|]. split; [done|]. split.
  - intros j Hj.
    assert (is_Some (cells !! (Z.to_nat index + S j)%nat)) as [[l' d'] Hj']
      by (by apply lookup_lt_is_Some_2).
    destruct (iterate_n_reaches ll p cells j st1 _ _ _ _ _ _ Hlist1 Hp Hk Hi Hj')
      as (st2 & Hex & Hi2 & _).
    exists st2, l', d'. split; [done|]. split.
    + unfold contents. by rewrite list_lookup_fmap, Hj'.
    + rewrite Hi2. do 3 f_equal. lia.
  - destruct (iterate_n_stops ll p cells (length cells - 1 - Z.to_nat index) st1 _ _ _
                Hlist1 Hp Hk Hi) as (st2 & dlast & Hex & Hlast & Hi2 & _); [lia|].
    eauto.
Qed.

Lemma X12_witness :
  ∃ it st1,
    linked_list_create_iterator 3 100 0 st_two = Ok it st1 ∧ it ≠ NULL ∧
    (∀ j : nat, (Z.to_nat 0 + S j < length cells_two)%nat →
       ∃ st2 l' d',
         iterate_n j it st1 = Ok true st2 ∧
         contents cells_two !! (Z.to_nat 0 + S j)%nat = Some d' ∧
         iters st2 !! it =
           Some (Iterator 100 (0 + Z.of_nat (S j)) l' d')) ∧
    (∃ st2 dlast,
       iterate_n (length cells_two - 1 - Z.to_nat 0) it st1 = Ok false st2 ∧
       last (contents cells_two) = Some dlast ∧
       iters st2 !! it =
         Some (Iterator 100 (Z.of_nat (length cells_two) - 1) NULL dlast)).
Proof.
  apply (X12_iterator_traversal st_two 3 100 cells_two 0).
  - exact st_two_is_list.
  - simpl. lia.
  - discriminate.
  - simpl. lia.
Defined.

Lemma free_iterator_Ok p i st :
  is_null p = false → iters st !! p = Some i →
  free_iterator p st = Ok () (with_iters (delete p) st).
Proof. unfold free_iterator. by intros -> ->. Qed.

(** X13.  Creating an iterator and deleting it again leaves nodes, list
    headers and iterators exactly as they were: [linked_list_create_iterator]
    adds only the iterator block and [linked_list_delete_iterator]
    releases only that block. *)
Theorem X13_iterator_create_delete st fuel ll cells index :
  is_list st ll cells → 0 ≤ index < Z.of_nat (length cells) →
  alloc_ok st → alloc_succeeds st → (length cells < fuel)%nat →
  ∃ st',
    (it ← linked_list_create_iterator fuel ll index;
     linked_list_delete_iterator it) st = Ok true st' ∧
    nodes st' = nodes st ∧ lists st' = lists st ∧ iters st' = iters st.
Proof.
  intros Hlist Hidx Hok Hsucc Hfuel.
  apply alloc_succeeds_inv in Hsucc as (p & rest & Hal & Hp).
  destruct (Hok _ _ Hal Hp) as (_ & _ & _ & Hfresh).
  assert (is_Some (cells !! Z.to_nat index)) as [[l d] Hk]
    by (apply lookup_lt_is_Some_2; lia).
  rewrite (bind_Ok _ _ _ _ _
             (create_iterator_Ok _ _ _ _ _ _ _ _ _ Hlist (proj1 Hidx) Hk Hal Hp Hfuel)).
  unfold linked_list_delete_iterator.
  apply is_null_false in Hp. rewrite Hp.
  mstep_with free_iterator_Ok; [|done|apply lookup_insert_eq].
  eexists. split; [done|]. msimpl.
  split; [done|]. split; [done|]. by apply delete_insert_id.
Qed.

Lemma X13_witness :
  ∃ st',
    (it ← linked_list_create_iterator 3 100 1;
     linked_list_delete_iterator it) st_two = Ok true st' ∧
    nodes st' = nodes st_two ∧ lists st' = lists st_two ∧
    iters st' = iters st_two.
Proof.
  apply (X13_iterator_create_delete st_two 3 100 cells_two 1).
  - exact st_two_is_list.
  - simpl. lia.
  - exact st_two_alloc_ok.
  - discriminate.
  - simpl. lia.
Defined.

Lemma load_node_dangling p st :
  nodes st !! p = None → load_node p st = Crash.
Proof. unfold load_node. intros ->. by destruct (is_null p). Qed.

(** X14.  Removing the node an iterator stands on invalidates the
    iterator without any check: the removal succeeds and releases the
    node, and the next [linked_list_iterate] reads [next] from the
    released node (a use after free, [Crash]). *)
Theorem X14_remove_under_iterator st fuel it ll cells (k : nat) l d d0 :
  is_list st ll cells → it ≠ NULL →
  cells !! k = Some (l, d) →
  iters st !! it = Some (Iterator ll (Z.of_nat k) l d0) →
  (length cells < fuel)%nat →
  (∃ st', linked_list_remove fuel ll (Z.of_nat k) st = Ok true st') ∧
  (linked_list_remove fuel ll (Z.of_nat k);; linked_list_iterate it) st = Crash.
Proof.
  intros Hlist Hit Hk Hi Hfuel.
  pose proof (lookup_lt_Some _ _ _ Hk) as Hlt.
  destruct (remove_is_list st fuel ll cells (Z.of_nat k) Hlist) as (st' & Hex & Hl' & Hits & _);
    [lia|done|].
  assert (0 ≤ Z.of_nat k < Z.of_nat (length cells)) as Hidx by lia.
  pose proof (remove_frame _ _ _ _ _ _ Hlist Hidx Hfuel Hex) as (_ & _ & F3 & _).
  split; [eauto|].
  rewrite (bind_Ok _ _ _ _ _ Hex).
  assert (nodes st' !! l = None) as Hgone.
  { destruct Hlist as (_ & hd & _ & Hseg).
    pose proof (lseg_NoDup _ _ _ Hseg) as Hnd.
    rewrite <- (take_drop_middle _ _ _ Hk) in Hnd.
    rewrite fmap_app, fmap_cons in Hnd. cbn [fst] in Hnd.
    apply NoDup_app in Hnd as (_ & Hdisj & Hnd).
    apply NoDup_cons in Hnd as [Hn2 _].
    apply F3.
    - apply list_elem_of_fmap. exists (l, d). split; [done|].
      by eapply list_elem_of_lookup_2.
    - rewrite Nat2Z.id, fmap_app. intros Hin.
      apply elem_of_app in Hin as [Hin | Hin]; [|done].
      apply (Hdisj _ Hin). by left. }
  destruct Hlist as (_ & hd & _ & Hseg).
  destruct (lseg_lookup _ _ _ _ _ _ Hseg Hk) as (Hv & _).
  unfold linked_list_iterate. apply is_null_false in Hit. rewrite Hit.
  rewrite <- Hits in Hi.
  mstep_with get_current_node_Ok; [|done|done]. msimpl.
  rewrite (valid_ptr_not_null _ Hv).
  apply bind_Crash. unfold get_next. apply bind_Crash.
  by apply load_node_dangling.
Qed.

Lemma X14_witness :
  (∃ st', linked_list_remove 3 100 (Z.of_nat 1) st_iter = Ok true st') ∧
  (linked_list_remove 3 100 (Z.of_nat 1);; linked_list_iterate 24) st_iter = Crash.
Proof.
  apply (X14_remove_under_iterator st_iter 3 24 100 cells_two 1 16 9 9).
  - exact st_iter_is_list.
  - discriminate.
  - reflexivity.
  - vm_compute. reflexivity.
  - simpl. lia.
Defined.

(** X15.  Look up, then iterate from there: when the value occurs in the
    list and the allocation succeeds, an iterator created at the index
    that [linked_list_find] returned caches exactly that value. *)
Theorem X15_iterator_at_found st fuel ll cells v :
  is_list st ll cells → v ∈ contents cells → alloc_succeeds st →
  (length cells < fuel)%nat →
  ∃ it st' idx l,
    (i ← linked_list_find fuel ll v; linked_list_create_iterator fuel ll i) st
      = Ok it st' ∧
    it ≠ NULL ∧ iters st' !! it = Some (Iterator ll idx l v) ∧
    contents cells !! Z.to_nat idx = Some v.
Proof.
  intros Hlist Hin Hsucc Hfuel.
  apply alloc_succeeds_inv in Hsucc as (p & rest & Hal & Hp).
  destruct (contents_first_occurrence _ _ Hin) as (c1 & [l d] & c2 & Hcells & Hc & Hfirst).
  cbn [snd] in Hc. subst d.
  assert (linked_list_find fuel ll v st = Ok (Z.of_nat (length c1)) st) as Hfind.
  { subst cells. apply (find_found _ _ _ c1 (l, v) c2); try done.
    rewrite length_app in Hfuel. lia. }
  rewrite (bind_Ok _ _ _ _ _ Hfind).
  assert (cells !! Z.to_nat (Z.of_nat (length c1)) = Some (l, v)) as Hk.
  { rewrite Nat2Z.id. subst cells. by apply list_lookup_middle. }
  rewrite (create_iterator_Ok _ _ _ _ _ _ _ _ _ Hlist (Nat2Z.is_nonneg _) Hk Hal Hp Hfuel).
  eexists p, _, (Z.of_nat (length c1)), l. split; [done|]. split; [done|].
  msimpl. split; [apply lookup_insert_eq|].
  unfold contents. by rewrite list_lookup_fmap, Hk.
Qed.

Lemma X15_witness :
  ∃ it st' idx l,
    (i ← linked_list_find 3 100 9; linked_list_create_iterator 3 100 i) st_two
      = Ok it st' ∧
    it ≠ NULL ∧ iters st' !! it = Some (Iterator 100 idx l 9) ∧
    contents cells_two !! Z.to_nat idx = Some 9.
Proof.
  apply (X15_iterator_at_found st_two 3 100 cells_two 9).
  - exact st_two_is_list.
  - vm_compute. apply list_elem_of_further, list_elem_of_here.
  - discriminate.
  - simpl. lia.
Defined.

(** ** Round trips and insertion order *)

Lemma lseg_agree h h' cells r : ∀ p p',
  lseg h p cells r → lseg h' p' cells r →
  p = p' ∧ ∀ q, q ∈ cells.*1 → h !! q = h' !! q.
Proof.
  induction cells as [|[l d] cells IH]; intros p p'; simpl.
  - intros -> ->. split; [done|]. intros q Hq. by apply elem_of_nil in Hq.
  - intros (-> & _ & n & Hn & Hrest) (-> & _ & n' & Hn' & Hrest').
    destruct (IH _ _ Hrest Hrest') as (-> & Hag).
    split; [done|]. intros q Hq.
    apply elem_of_cons in Hq as [-> | Hq]; [congruence | by apply Hag].
Qed.

Lemma is_list_functional st ll c c' :
  is_list st ll c → is_list st ll c' → c = c'.
Proof.
  intros (_ & hd & Hhdr & Hseg) (_ & hd' & Hhdr' & Hseg').
  rewrite Hhdr in Hhdr'. injection Hhdr' as <- _.
  by eapply lseg_functional.
Qed.

(** X16.  Insert, then remove at the same index: both calls succeed and
    nodes, list headers and iterators are exactly as before the
    insertion (the node that was allocated is released again and every
    link is restored). *)
Theorem X16_insert_then_remove_restores_memory st fuel ll cells index v :
  is_list st ll cells → alloc_ok st → alloc_succeeds st →
  0 ≤ index ≤ Z.of_nat (length cells) →
  (S (length cells) < fuel)%nat →
  ∃ st1 st2,
    linked_list_insert fuel ll index v st = Ok true st1 ∧
    linked_list_remove fuel ll index st1 = Ok true st2 ∧
    nodes st2 = nodes st ∧ lists st2 = lists st ∧ iters st2 = iters st.
Proof.
  intros Hlist Hok Hsucc Hidx Hfuel.
  apply alloc_succeeds_inv in Hsucc as (p & rest & Hal & Hp).
  destruct (Hok _ _ Hal Hp) as (_ & Hfresh & _).
  pose proof Hlist as (Hll & hd & Hhdr & Hseg).
  pose proof (lseg_fresh _ _ _ _ _ Hseg Hfresh) as Hpnew.
  destruct (insert_spec st fuel ll cells index v Hlist Hok) as (_ & _ & Hins);
    [lia|lia|].
  destruct (Hins ltac:(lia) p rest Hal Hp) as (st1 & Hex1 & Hl1 & _).
  set (i := Z.to_nat index) in *.
  set (cells1 := take i cells ++ (p, v) :: drop i cells) in *.
  assert (length (take i cells) = i) as Hlen by (rewrite length_take; lia).
  assert (frame ll st st1 cells cells1) as (A1 & A2 & A3 & A4 & A5).
  { destruct (run_op_effect st st1 fuel ll (OpInsert index v) cells Hlist (λ _, Hok))
      as (c & Hc & _ & Hfr); [cbn; pose proof (lseg_length_bound _ _ _ Hseg); lia|done|].
    by rewrite (is_list_functional _ _ _ _ Hl1 Hc). }
  assert (length cells1 = S (length cells)) as Hlen1.
  { unfold cells1. rewrite length_app. cbn [length].
    rewrite length_take, length_drop. lia. }
  assert (take i cells1 ++ drop (S i) cells1 = cells) as Hback.
  { unfold cells1. rewrite take_app_length' by done.
    rewrite (cons_middle (p, v)), (assoc_L (++)).
    rewrite drop_app_length' by (rewrite length_app; cbn [length]; lia).
    apply take_drop. }
  assert (0 ≤ index < Z.of_nat (length cells1)) as Hidx1 by lia.
  assert (length cells1 < fuel)%nat as Hfuel1 by lia.
  destruct (remove_is_list st1 fuel ll cells1 index Hl1 Hidx1 Hfuel1)
    as (st2 & Hex2 & Hl2 & _).
  pose proof (remove_frame _ _ _ _ _ _ Hl1 Hidx1 Hfuel1 Hex2) as (B1 & B2 & B3 & B4 & B5).
  fold i in Hl2, B1, B2, B3. rewrite Hback in Hl2, B1, B2, B3.
  exists st1, st2. split; [done|]. split; [done|].
  destruct Hl2 as (_ & hd2 & Hhdr2 & Hseg2).
  destruct (lseg_agree _ _ _ _ _ _ Hseg2 Hseg) as (-> & Hag).
  assert (p ∈ cells1.*1) as Hp1.
  { unfold cells1. rewrite fmap_app, fmap_cons. apply elem_of_app. right. by left. }
  split; [|split].
  - apply map_eq. intros q.
    destruct (decide (q ∈ cells.*1)) as [Hq | Hq]; [by apply Hag|].
    destruct (decide (q ∈ cells1.*1)) as [Hq1 | Hq1].
    + rewrite (B3 q Hq1 Hq). symmetry. by apply A2.
    + rewrite (B1 q Hq1 Hq). by apply A1.
  - apply map_eq. intros q.
    destruct (decide (q = ll)) as [-> | Hq]; [by rewrite Hhdr2, Hhdr|].
    rewrite (B4 q Hq). by apply A4.
  - by rewrite B5.
Qed.

Lemma X16_witness :
  ∃ st1 st2,
    linked_list_insert 4 100 1 5 st_two = Ok true st1 ∧
    linked_list_remove 4 100 1 st1 = Ok true st2 ∧
    nodes st2 = nodes st_two ∧ lists st2 = lists st_two ∧
    iters st2 = iters st_two.
Proof.
  apply (X16_insert_then_remove_restores_memory st_two 4 100 cells_two 1 5).
  - exact st_two_is_list.
  - exact st_two_alloc_ok.
  - discriminate.
  - simpl. lia.
  - simpl. lia.
Defined.

Lemma foldl_insert_end vs : ∀ xs,
  foldl (λ xs o, apply_op o xs) xs (OpInsertEnd <$> vs) = xs ++ vs.
Proof.
  induction vs as [|v vs IH]; intros xs; cbn [fmap list_fmap foldl apply_op].
  - by rewrite app_nil_r.
  - change (foldl (λ xs o, apply_op o xs) (xs ++ [v]) (OpInsertEnd <$> vs) =
            xs ++ v :: vs).
    by rewrite IH, <- app_assoc.
Qed.

Lemma foldl_insert_front vs : ∀ xs,
  foldl (λ xs o, apply_op o xs) xs (OpInsertFront <$> vs) = reverse vs ++ xs.
Proof.
  induction vs as [|v vs IH]; intros xs; cbn [fmap list_fmap foldl apply_op].
  - done.
  - change (foldl (λ xs o, apply_op o xs) (v :: xs) (OpInsertFront <$> vs) =
            reverse (v :: vs) ++ xs).
    by rewrite IH, reverse_cons, <- app_assoc.
Qed.

(** X17.  Insertion order: values inserted one after the other with
    [linked_list_insert_end] come after the old elements in the order of
    insertion; inserted with [linked_list_insert_front] they come before
    the old elements in reverse order of insertion. *)
Theorem X17_insertion_order ll vs ws st st1 st2 cells :
  is_list st ll cells →
  run_ok ll (OpInsertEnd <$> vs) st st1 →
  run_ok ll (OpInsertFront <$> ws) st st2 →
  (∃ c1, is_list st1 ll c1 ∧ contents c1 = contents cells ++ vs) ∧
  (∃ c2, is_list st2 ll c2 ∧ contents c2 = reverse ws ++ contents cells).
Proof.
  intros Hlist Hrun1 Hrun2. split.
  - destruct (run_ok_effect _ _ _ _ _ Hlist Hrun1) as (c1 & Hl1 & Hc1).
    exists c1. split; [done|]. by rewrite Hc1, foldl_insert_end.
  - destruct (run_ok_effect _ _ _ _ _ Hlist Hrun2) as (c2 & Hl2 & Hc2).
    exists c2. split; [done|]. by rewrite Hc2, foldl_insert_front.
Qed.

Lemma run_ok_ends : run_ok 100 (OpInsertEnd <$> [5; 7]) st_created st_ends.
Proof. cbn [fmap list_fmap]. do 2 run_ok_step. apply run_nil. Qed.

Lemma run_ok_fronts : run_ok 100 (OpInsertFront <$> [5; 7]) st_created st_fronts.
Proof. cbn [fmap list_fmap]. do 2 run_ok_step. apply run_nil. Qed.

Lemma X17_witness :
  (∃ c1, is_list st_ends 100 c1 ∧ contents c1 = contents [] ++ [5; 7]) ∧
  (∃ c2, is_list st_fronts 100 c2 ∧ contents c2 = reverse [5; 7] ++ contents []).
Proof.
  apply (X17_insertion_order 100 [5; 7] [5; 7] st_created st_ends st_fronts []).
  - exact st_created_is_list.
  - exact run_ok_ends.
  - exact run_ok_fronts.
Defined.

(** X18.  If the allocation of the iterator fails,
    [linked_list_create_iterator] returns [NULL] and nodes, list headers
    and iterators are as before. *)
Theorem X18_create_iterator_allocation_failure st fuel ll cells index :
  is_list st ll cells → 0 ≤ index < Z.of_nat (length cells) →
  alloc_fails st → (length cells < fuel)%nat →
  ∃ st', linked_list_create_iterator fuel ll index st = Ok NULL st' ∧
         nodes st' = nodes st ∧ lists st' = lists st ∧ iters st' = iters st.
Proof.
  intros Hlist Hidx Hf Hfuel. exists (pop_alloc st).
  split; [by apply create_iterator_fail with cells | done].
Qed.

Lemma X18_witness :
  ∃ st', linked_list_create_iterator 3 100 1 st_two_oom = Ok NULL st' ∧
         nodes st' = nodes st_two_oom ∧ lists st' = lists st_two_oom ∧
         iters st' = iters st_two_oom.
Proof.
  apply (X18_create_iterator_allocation_failure st_two_oom 3 100 cells_two 1).
  - exact st_two_oom_is_list.
  - simpl. lia.
  - exact I.
  - simpl. lia.
Defined.
